(** * ipykernel.kernelspec: the IPython kernel spec for Jupyter

    A shallow embedding of [ipykernel/kernelspec.py] and the properties of
    its five parts: the command builder [make_ipkernel_cmd], the spec
    assembler [get_kernel_dict], the spec writer [write_kernel_spec], the
    installer [install] and the command-line entry point [main].

    Python [str] values are [string]s (sequences of 8-bit characters),
    Python lists of strings are [list string], the kernel dict is a
    [gmap string pyobj].  Code that touches the file system, the output
    stream or a collaborator object runs in a state-and-exception monad over
    a [world]. *)

From Stdlib Require Import Ascii String.
From stdpp Require Import gmap strings list fin_maps pretty.

(** ** Python values that occur in the kernel dict *)

Inductive pyobj :=
  | PyStr (s : string)
  | PyList (l : list string).

Global Instance pyobj_eq_dec : EqDecision pyobj.
Proof. solve_decision. Defined.

(** [needle in hay] for Python strings. *)
Definition substring_of (needle hay : string) : Prop :=
  ∃ before after, hay = before +:+ needle +:+ after.

(** [s.endswith(suffix)] *)
Definition ends_with (s suffix : string) : Prop :=
  ∃ before, s = before +:+ suffix.

(** ** The file system

    A tree of directories and regular files.  Permissions, symbolic links
    and special files are not part of the model. *)

#[warnings="-register-all"]
Inductive node :=
  | File (content : string)
  | Dir (entries : gmap string node).

(** A resolved path is a [list string]: the names from the root down. *)

(** The error numbers that occur. *)
Inductive errno := ENOENT | EEXIST | ENOTDIR | EISDIR | EBUSY.

Global Instance errno_eq_dec : EqDecision errno.
Proof. solve_decision. Defined.

(** [stat]: walk [p] down from [n]. *)
Fixpoint fs_stat (p : list string) (n : node) : errno + node :=
  match p with
  | [] => inr n
  | c :: p' =>
      match n with
      | File _ => inl ENOTDIR
      | Dir m =>
          match m !! c with
          | None => inl ENOENT
          | Some n' => fs_stat p' n'
          end
      end
  end.

(** Apply [f] to the entries of the directory at [p]; nothing changes when
    [p] is not a directory. *)
Fixpoint fs_update_dir (p : list string) (f : gmap string node → gmap string node)
    (n : node) : node :=
  match n with
  | File _ => n
  | Dir m =>
      match p with
      | [] => Dir (f m)
      | c :: p' => Dir (alter (fs_update_dir p' f) c m)
      end
  end.

(** The last name of a path and what is before it. *)
Fixpoint split_last (p : list string) : option (list string * string) :=
  match p with
  | [] => None
  | [c] => Some ([], c)
  | c :: p' =>
      match split_last p' with
      | Some (q, l) => Some (c :: q, l)
      | None => None
      end
  end.

(** [mkdir(2)] *)
Definition fs_mkdir (p : list string) (t : node) : errno + node :=
  match split_last p with
  | None => inl EEXIST
  | Some (parent, name) =>
      match fs_stat parent t with
      | inl e => inl e
      | inr (File _) => inl ENOTDIR
      | inr (Dir m) =>
          match m !! name with
          | Some _ => inl EEXIST
          | None => inr (fs_update_dir parent (insert name (Dir ∅)) t)
          end
      end
  end.

(** [os.makedirs] on resolved paths, [rp] being the path reversed: create the
    missing ancestors first (an ancestor that is there already is fine), then
    the leaf with [mkdir]. *)
Fixpoint fs_makedirs_rev (rp : list string) (t : node) : errno + node :=
  match rp with
  | [] => fs_mkdir [] t
  | _ :: rhead =>
      match rhead, fs_stat (reverse rhead) t with
      | _ :: _, inl _ =>
          match fs_makedirs_rev rhead t with
          | inr t' => fs_mkdir (reverse rp) t'
          | inl EEXIST => fs_mkdir (reverse rp) t
          | inl e => inl e
          end
      | _, _ => fs_mkdir (reverse rp) t
      end
  end.

Definition fs_makedirs (p : list string) (t : node) : errno + node :=
  fs_makedirs_rev (reverse p) t.

(** Fill the directory at [p] with [entries]. *)
Definition fs_fill (p : list string) (entries : gmap string node) (t : node) : node :=
  fs_update_dir p (λ _, entries) t.

(** [open(p, 'w')], the writes, and [close]: create or truncate the regular
    file at [p] and leave [content] in it. *)
Definition fs_write (p : list string) (content : string) (t : node) : errno + node :=
  match split_last p with
  | None => inl EISDIR
  | Some (parent, name) =>
      match fs_stat parent t with
      | inl e => inl e
      | inr (File _) => inl ENOTDIR
      | inr (Dir m) =>
          match m !! name with
          | Some (Dir _) => inl EISDIR
          | _ => inr (fs_update_dir parent (insert name (File content)) t)
          end
      end
  end.

(** Remove the directory at [p] with everything below it.  The root can be
    emptied but not removed. *)
Definition fs_rmtree (p : list string) (t : node) : errno * node + node :=
  match fs_stat p t with
  | inl e => inl (e, t)
  | inr (File _) => inl (ENOTDIR, t)
  | inr (Dir _) =>
      match split_last p with
      | None => inl (EBUSY, Dir ∅)
      | Some (parent, name) => inr (fs_update_dir parent (delete name) t)
      end
  end.

(** ** Path names *)

Definition is_slash (c : ascii) : bool := bool_decide (c = "/"%char).

Definition starts_with_slash (s : string) : bool :=
  match s with
  | String c _ => is_slash c
  | "" => false
  end.

Fixpoint ends_with_slash (s : string) : bool :=
  match s with
  | "" => false
  | String c "" => is_slash c
  | String _ s' => ends_with_slash s'
  end.

(** [posixpath.join(a, b)] *)
Definition pjoin (a b : string) : string :=
  if starts_with_slash b then b
  else if bool_decide (a = "") || ends_with_slash a then a +:+ b
  else a +:+ "/" +:+ b.

(** [s.rstrip('/')] *)
Fixpoint rstrip_slash (s : string) : string :=
  match s with
  | "" => ""
  | String c s' =>
      match rstrip_slash s' with
      | "" => if is_slash c then "" else String c ""
      | r => String c r
      end
  end.

(** [p[:p.rfind('/') + 1]] *)
Fixpoint upto_last_slash (p : string) : string :=
  match p with
  | "" => ""
  | String c p' =>
      match upto_last_slash p' with
      | "" => if is_slash c then String c "" else ""
      | h => String c h
      end
  end.

(** [posixpath.dirname(p)] *)
Definition dirname (p : string) : string :=
  let head := upto_last_slash p in
  match rstrip_slash head with
  | "" => head
  | stripped => stripped
  end.

(** [s.split('/')] *)
Fixpoint split_slash (s : string) : list string :=
  match s with
  | "" => [""]
  | String c s' =>
      if is_slash c then "" :: split_slash s'
      else
        match split_slash s' with
        | x :: xs => String c x :: xs
        | [] => [String c ""]
        end
  end.

(** One name of a path name, read from the directory [dir]: empty names and
    [.] stay, [..] goes up (lexically), a name goes down.  For a path name
    with no [.] and no [..] among its names ([dot_free] below) this is how
    the system resolves it and how [os.makedirs] takes it apart; with [..]
    after a name that is not there, or [.] after the name of a file, it is
    not. *)
Definition walk (dir : list string) (name : string) : list string :=
  if bool_decide (name = "") || bool_decide (name = ".") then dir
  else if bool_decide (name = "..") then removelast dir
  else dir ++ [name].

(** Path-name resolution: absolute names from the root, relative ones from
    the working directory; the empty name resolves to nothing. *)
Definition resolve (cwd : list string) (s : string) : option (list string) :=
  match s with
  | "" => None
  | _ => Some (foldl walk (if starts_with_slash s then [] else cwd) (split_slash s))
  end.

(** ** Exceptions, results, the world *)

Inductive exn :=
  | OSError (e : errno) (filename : string)
  | IOError (e : errno) (filename : string)
  | SystemExit (code : nat)
  | Exception (msg : string).

Inductive result (A : Type) :=
  | Return (a : A)
  | Raise (e : exn).
Global Arguments Return {A} a.
Global Arguments Raise {A} e.

(** What a kernel spec manager was asked to install. *)
Record install_call := InstallCall {
  call_source_dir : string;
  call_kernel_name : string;
  call_user : bool;
  call_prefix : option string;
}.

Record world := World {
  root : node;                 (* the file system *)
  cwd : list string;           (* the working directory, resolved *)
  names : nat → string;        (* tempfile's sequence of candidate names *)
  drawn : nat;                 (* how many of them were drawn *)
  stdout : list string;        (* the lines printed *)
  calls : list install_call;   (* calls recorded by a stub manager *)
}.

Definition set_root (t : node) (w : world) : world :=
  World t (cwd w) (names w) (drawn w) (stdout w) (calls w).
Definition set_drawn (n : nat) (w : world) : world :=
  World (root w) (cwd w) (names w) n (stdout w) (calls w).
Definition add_stdout (line : string) (w : world) : world :=
  World (root w) (cwd w) (names w) (drawn w) (stdout w ++ [line]) (calls w).
Definition add_call (c : install_call) (w : world) : world :=
  World (root w) (cwd w) (names w) (drawn w) (stdout w) (calls w ++ [c]).

(** Computations: state passing over the world, with exceptions. *)
Definition M (A : Type) : Type := world → result A * world.

Global Instance M_ret : MRet M := λ A a w, (Return a, w).
Global Instance M_bind : MBind M := λ A B f m w,
  match m w with
  | (Return a, w') => f a w'
  | (Raise e, w') => (Raise e, w')
  end.
Definition raise {A} (e : exn) : M A := λ w, (Raise e, w).

(** Does [s] name something in the world? *)
Definition exists_in (w : world) (s : string) : bool :=
  match resolve (cwd w) s with
  | Some p => match fs_stat p (root w) with inr _ => true | inl _ => false end
  | None => false
  end.

(** ** Operating-system and library calls *)

(** [os.mkdir(file)] *)
Definition os_mkdir (file : string) : M unit := λ w,
  match resolve (cwd w) file with
  | None => (Raise (OSError ENOENT file), w)
  | Some p =>
      match fs_mkdir p (root w) with
      | inl e => (Raise (OSError e file), w)
      | inr t => (Return (), set_root t w)
      end
  end.

(** [os.makedirs(name)].  The error is given the name [name]; where it is
    an ancestor that cannot be made, the library gives the name of that
    ancestor. *)
Definition os_makedirs (name : string) : M unit := λ w,
  match resolve (cwd w) name with
  | None => (Raise (OSError ENOENT name), w)
  | Some p =>
      match fs_makedirs p (root w) with
      | inl e => (Raise (OSError e name), w)
      | inr t => (Return (), set_root t w)
      end
  end.

(** [os.listdir(dir)], each name with what it names. *)
Definition os_listdir (dir : string) : M (gmap string node) := λ w,
  match resolve (cwd w) dir with
  | None => (Raise (OSError ENOENT dir), w)
  | Some p =>
      match fs_stat p (root w) with
      | inl e => (Raise (OSError e dir), w)
      | inr (File _) => (Raise (OSError ENOTDIR dir), w)
      | inr (Dir m) => (Return m, w)
      end
  end.

(** The loop of [shutil.copytree] over the listed names: a copy of each
    entry goes to the new directory [dst]. *)
Definition copy_entries (entries : gmap string node) (dst : string) : M unit := λ w,
  match resolve (cwd w) dst with
  | None => (Raise (OSError ENOENT dst), w)
  | Some p => (Return (), set_root (fs_fill p entries (root w)) w)
  end.

(** [shutil.copytree(src, dst)]: list [src], make [dst] (which must not be
    there yet), copy.  What is copied is [src] as listed on entry, which is
    what the library copies when [dst] is not inside [src]. *)
Definition shutil_copytree (src dst : string) : M unit :=
  entries ← os_listdir src;
  _ ← os_makedirs dst;
  copy_entries entries dst.

(** [shutil.rmtree(dir)] *)
Definition shutil_rmtree (dir : string) : M unit := λ w,
  match resolve (cwd w) dir with
  | None => (Raise (OSError ENOENT dir), w)
  | Some p =>
      match fs_rmtree p (root w) with
      | inl (e, t) => (Raise (OSError e dir), set_root t w)
      | inr t => (Return (), set_root t w)
      end
  end.

(** [with open(file, 'w') as f: f.write(content)] *)
Definition write_file (file content : string) : M unit := λ w,
  match resolve (cwd w) file with
  | None => (Raise (IOError ENOENT file), w)
  | Some p =>
      match fs_write p content (root w) with
      | inl e => (Raise (IOError e file), w)
      | inr t => (Return (), set_root t w)
      end
  end.

(** [print(line)] *)
Definition print (line : string) : M unit := λ w, (Return (), add_stdout line w).

(** The next candidate name of [tempfile]. *)
Definition next_name : M string := λ w,
  (Return (names w (drawn w)), set_drawn (S (drawn w)) w).

(** The loop of [tempfile.mkdtemp], [attempts] candidates to go: a candidate
    that exists already is skipped, any other error of [mkdir] is raised. *)
Fixpoint mkdtemp_loop (attempts : nat) (dir prefix suffix : string) : M string :=
  match attempts with
  | 0 => raise (IOError EEXIST "No usable temporary directory name found")
  | S attempts' =>
      name ← next_name;
      let file := pjoin dir (prefix +:+ name +:+ suffix) in
      (λ w,
        match os_mkdir file w with
        | (Return _, w') => (Return file, w')
        | (Raise (OSError EEXIST _), w') => mkdtemp_loop attempts' dir prefix suffix w'
        | (Raise e, w') => (Raise e, w')
        end) : M string
  end.

(** ** JSON text, as [json.dump] of Python 2.7 writes it and [json.load]
    reads it

    Characters are 8-bit; on 7-bit strings ([seven_bit] below) the encoder
    is the one of CPython and the decoder gives strings equal to the ones
    that were written.  A [str] with other bytes is decoded as UTF-8 by
    CPython before it is written, or refused; that is not modelled.
    The items of a dict are written in the order of [map_to_list]. *)

Definition dquote : ascii := "034"%char.
Definition newline : ascii := "010"%char.

Definition hex_digit (n : N) : ascii :=
  match n with
  | 0 => "0" | 1 => "1" | 2 => "2" | 3 => "3" | 4 => "4" | 5 => "5"
  | 6 => "6" | 7 => "7" | 8 => "8" | 9 => "9" | 10 => "a" | 11 => "b"
  | 12 => "c" | 13 => "d" | 14 => "e" | _ => "f"
  end%N%char.

(** The replacement of one character by [ESCAPE_ASCII]: the short escapes of
    [ESCAPE_DCT], [\u00xx] for what is not between space and tilde. *)
Definition escape_char (c : ascii) : string :=
  let n := N_of_ascii c in
  if bool_decide (c = dquote) then String "\" (String dquote "")
  else if bool_decide (c = "\"%char) then "\\"
  else if bool_decide (n = 8%N) then "\b"
  else if bool_decide (n = 12%N) then "\f"
  else if bool_decide (n = 10%N) then "\n"
  else if bool_decide (n = 13%N) then "\r"
  else if bool_decide (n = 9%N) then "\t"
  else if bool_decide (32 ≤ n)%N && bool_decide (n ≤ 126)%N then String c ""
  else "\u00" +:+ String (hex_digit (n `div` 16)) (String (hex_digit (n `mod` 16)) "").

Fixpoint escape (s : string) : string :=
  match s with
  | "" => ""
  | String c s' => escape_char c +:+ escape s'
  end.

(** [encode_basestring_ascii(s)] *)
Definition encode_basestring_ascii (s : string) : string :=
  String dquote (escape s +:+ String dquote "").

(** [' ' * n] *)
Fixpoint spaces (n : nat) : string :=
  match n with
  | 0 => ""
  | S n' => String " " (spaces n')
  end.

Definition newline_indent (indent level : nat) : string :=
  String newline (spaces (indent * level)).

(** Items joined by the item separator [', '] and the newline-indent. *)
Fixpoint join_items (sep : string) (chunks : list string) : string :=
  match chunks with
  | [] => ""
  | [c] => c
  | c :: rest => c +:+ sep +:+ join_items sep rest
  end.

(** [_iterencode_list(lst, level)] on a list of strings. *)
Definition iterencode_list (indent level : nat) (lst : list string) : string :=
  match lst with
  | [] => "[]"
  | _ =>
      "[" +:+ newline_indent indent (S level)
      +:+ join_items (", " +:+ newline_indent indent (S level))
            (encode_basestring_ascii <$> lst)
      +:+ newline_indent indent level +:+ "]"
  end.

Definition iterencode_value (indent level : nat) (v : pyobj) : string :=
  match v with
  | PyStr s => encode_basestring_ascii s
  | PyList l => iterencode_list indent level l
  end.

(** [_iterencode_dict(dct, level)] on the items of the dict. *)
Definition iterencode_dict (indent level : nat) (items : list (string * pyobj)) : string :=
  match items with
  | [] => "{}"
  | _ =>
      "{" +:+ newline_indent indent (S level)
      +:+ join_items (", " +:+ newline_indent indent (S level))
            ((λ kv, encode_basestring_ascii kv.1 +:+ ": "
                     +:+ iterencode_value indent (S level) kv.2) <$> items)
      +:+ newline_indent indent level +:+ "}"
  end.

(** What [json.dump(obj, f, indent=indent)] writes to [f]. *)
Definition json_dump (obj : gmap string pyobj) (indent : nat) : string :=
  iterencode_dict indent 0 (map_to_list obj).

(** [json.load] on the objects that [json_dump] can write: an object whose
    values are strings or arrays of strings.  Any other text gives [None]. *)

Inductive token :=
  | TLBrace | TRBrace | TLBracket | TRBracket | TComma | TColon
  | TString (s : string).

Definition is_json_space (c : ascii) : bool :=
  let n := N_of_ascii c in
  bool_decide (n = 32%N) || bool_decide (n = 9%N)
  || bool_decide (n = 10%N) || bool_decide (n = 13%N).

Definition hex_value (c : ascii) : option N :=
  let n := N_of_ascii c in
  if bool_decide (48 ≤ n)%N && bool_decide (n ≤ 57)%N then Some (n - 48)%N
  else if bool_decide (97 ≤ n)%N && bool_decide (n ≤ 102)%N then Some (n - 87)%N
  else if bool_decide (65 ≤ n)%N && bool_decide (n ≤ 70)%N then Some (n - 55)%N
  else None.

(** The character a short escape [\e] stands for. *)
Definition unescape (e : ascii) : option ascii :=
  if bool_decide (e = dquote) then Some dquote
  else if bool_decide (e = "\"%char) then Some "\"%char
  else if bool_decide (e = "/"%char) then Some "/"%char
  else if bool_decide (e = "b"%char) then Some (ascii_of_N 8)
  else if bool_decide (e = "f"%char) then Some (ascii_of_N 12)
  else if bool_decide (e = "n"%char) then Some (ascii_of_N 10)
  else if bool_decide (e = "r"%char) then Some (ascii_of_N 13)
  else if bool_decide (e = "t"%char) then Some (ascii_of_N 9)
  else None.

(** The character of [\uh1h2h3h4], when it is an 8-bit one. *)
Definition unescape_u (h1 h2 h3 h4 : ascii) : option ascii :=
  d1 ← hex_value h1; d2 ← hex_value h2; d3 ← hex_value h3; d4 ← hex_value h4;
  let code := (((d1 * 16 + d2) * 16 + d3) * 16 + d4)%N in
  if bool_decide (code < 256)%N then Some (ascii_of_N code) else None.

Fixpoint scan (s : string) : option (list token) :=
  match s with
  | "" => Some []
  | String c s' =>
      if is_json_space c then scan s'
      else if bool_decide (c = "{"%char) then cons TLBrace <$> scan s'
      else if bool_decide (c = "}"%char) then cons TRBrace <$> scan s'
      else if bool_decide (c = "["%char) then cons TLBracket <$> scan s'
      else if bool_decide (c = "]"%char) then cons TRBracket <$> scan s'
      else if bool_decide (c = ","%char) then cons TComma <$> scan s'
      else if bool_decide (c = ":"%char) then cons TColon <$> scan s'
      else if bool_decide (c = dquote) then
        match scan_string s' with
        | Some (str, toks) => Some (TString str :: toks)
        | None => None
        end
      else None
  end
with scan_string (s : string) : option (string * list token) :=
  match s with
  | "" => None
  | String c s' =>
      if bool_decide (c = dquote) then
        match scan s' with
        | Some toks => Some ("", toks)
        | None => None
        end
      else if bool_decide (c = "\"%char) then
        match s' with
        | String "u" (String h1 (String h2 (String h3 (String h4 s'')))) =>
            match unescape_u h1 h2 h3 h4, scan_string s'' with
            | Some c', Some (str, toks) => Some (String c' str, toks)
            | _, _ => None
            end
        | String e s'' =>
            match unescape e, scan_string s'' with
            | Some c', Some (str, toks) => Some (String c' str, toks)
            | _, _ => None
            end
        | "" => None
        end
      else if bool_decide (N_of_ascii c < 32)%N then None
      else
        match scan_string s' with
        | Some (str, toks) => Some (String c str, toks)
        | None => None
        end
  end.

(** The rest of an array, after one of its elements. *)
Fixpoint parse_elements (toks : list token) : option (list string * list token) :=
  match toks with
  | TRBracket :: rest => Some ([], rest)
  | TComma :: TString s :: rest =>
      match parse_elements rest with
      | Some (l, rest') => Some (s :: l, rest')
      | None => None
      end
  | _ => None
  end.

Definition parse_value (toks : list token) : option (pyobj * list token) :=
  match toks with
  | TString s :: rest => Some (PyStr s, rest)
  | TLBracket :: TRBracket :: rest => Some (PyList [], rest)
  | TLBracket :: TString s :: rest =>
      match parse_elements rest with
      | Some (l, rest') => Some (PyList (s :: l), rest')
      | None => None
      end
  | _ => None
  end.

(** The rest of an object, after one of its members; a key that comes again
    replaces the earlier value. *)
Fixpoint parse_members (fuel : nat) (obj : gmap string pyobj) (toks : list token)
    : option (gmap string pyobj * list token) :=
  match fuel with
  | 0 => None
  | S fuel' =>
      match toks with
      | TRBrace :: rest => Some (obj, rest)
      | TComma :: TString k :: TColon :: rest =>
          match parse_value rest with
          | Some (v, rest') => parse_members fuel' (<[k := v]> obj) rest'
          | None => None
          end
      | _ => None
      end
  end.

Definition parse_object (toks : list token) : option (gmap string pyobj) :=
  match toks with
  | [TLBrace; TRBrace] => Some ∅
  | TLBrace :: TString k :: TColon :: rest =>
      match parse_value rest with
      | Some (v, rest') =>
          match parse_members (length rest') {[k := v]} rest' with
          | Some (obj, []) => Some obj
          | _ => None
          end
      | None => None
      end
  | _ => None
  end.

Definition json_loads (s : string) : option (gmap string pyobj) :=
  toks ← scan s; parse_object toks.

(** ** argparse

    The part of [argparse] that the entry point uses: options with the
    actions [store], [store_true] and [help], looked up by their exact
    spelling, as [--opt=value], or by an unambiguous prefix of a long
    spelling.  A value that begins with a dash is not taken, and neither is
    the value of a short option at the end of a group (the parse is
    refused). *)

Inductive nsval :=
  | NsNone
  | NsBool (b : bool)
  | NsStr (s : string).

Inductive action := store | store_true | help.

Record argument := Argument {
  option_strings : list string;
  arg_action : action;
  dest : string;
  arg_default : nsval;
}.

Record ArgumentParser := {
  description : string;
  arguments : list argument;
}.

(** [s.lstrip('-')] *)
Fixpoint lstrip_dash (s : string) : string :=
  match s with
  | String "-" s' => lstrip_dash s'
  | _ => s
  end.

(** [argparse.ArgumentParser(description=...)]: the help option is there from
    the start. *)
Definition new_ArgumentParser (description : string) : ArgumentParser :=
  {| description := description;
     arguments := [Argument ["-h"; "--help"] help "help" NsNone] |}.

(** [s.replace('-', '_')] *)
Fixpoint dashes_to_underscores (s : string) : string :=
  match s with
  | "" => ""
  | String c s' =>
      String (if bool_decide (c = "-"%char) then "_"%char else c)
        (dashes_to_underscores s')
  end.

(** [parser.add_argument(flag, action=..., default=...)]; the attribute is
    named after the flag. *)
Definition add_argument (flag : string) (a : action) (default : nsval)
    (p : ArgumentParser) : ArgumentParser :=
  {| description := description p;
     arguments :=
       arguments p
       ++ [Argument [flag] a (dashes_to_underscores (lstrip_dash flag)) default] |}.

(** The namespace before any argument is read: the default of every option
    but [help]. *)
Definition defaults (p : ArgumentParser) : gmap string nsval :=
  foldl (λ ns a, match arg_action a with
                 | help => ns
                 | _ => <[dest a := arg_default a]> ns
                 end) ∅ (arguments p).

(** [arg.split('=', 1)] *)
Fixpoint split_eq (s : string) : string * option string :=
  match s with
  | "" => ("", None)
  | String c s' =>
      if bool_decide (c = "="%char) then ("", Some s')
      else let '(l, r) := split_eq s' in (String c l, r)
  end.

(** The options with a spelling that satisfies [P], each with that spelling. *)
Definition matching (P : string → bool) (p : ArgumentParser) : list (argument * string) :=
  a ← arguments p; o ← filter (λ o, P o) (option_strings a); [(a, o)].

Inductive parsed :=
  | Extra                    (* a positional or an unknown option *)
  | Ambiguous
  | Optional (a : argument) (option_string : string) (explicit : option string).

(** [_parse_optional(arg)] *)
Definition parse_optional (p : ArgumentParser) (arg : string) : parsed :=
  match arg with
  | String c1 (String c2 rest2) =>
      if negb (bool_decide (c1 = "-"%char)) then Extra
      else
        match matching (String.eqb arg) p with
        | (a, o) :: _ => Optional a o None
        | [] =>
            let '(opt, explicit) := split_eq arg in
            match (match explicit with
                   | Some _ => matching (String.eqb opt) p
                   | None => []
                   end) with
            | (a, o) :: _ => Optional a o explicit
            | [] =>
                let tuples : list (argument * string * option string) :=
                  if bool_decide (c2 = "-"%char)
                  then (λ ao, (ao, explicit)) <$> matching (String.prefix opt) p
                  else
                    ((λ ao, (ao, Some rest2))
                       <$> matching (String.eqb (String "-" (String c2 ""))) p)
                    ++ ((λ ao, (ao, None)) <$> matching (String.prefix arg) p) in
                match tuples with
                | [] => Extra
                | [((a, o), e)] => Optional a o e
                | _ => Ambiguous
                end
            end
        end
  | _ => Extra
  end.

(** The options of a group of short options [-xyz], after [-x] was found to
    take no value: [e] is what is left of the group. *)
Fixpoint parse_group (p : ArgumentParser) (e : string) : option (list (argument * option string)) :=
  match e with
  | "" => Some []
  | String c e' =>
      match matching (String.eqb (String "-" (String c ""))) p with
      | (a, _) :: _ =>
          match arg_action a with
          | store => if bool_decide (e' = "") then None else Some [(a, Some e')]
          | _ => cons (a, None) <$> parse_group p e'
          end
      | [] => None
      end
  end.

(** Run the action of an option. *)
Definition take_action (help_text : string) (a : argument) (value : option string)
    (ns : gmap string nsval) : M (gmap string nsval) :=
  match arg_action a with
  | help => _ ← print help_text; raise (SystemExit 0)
  | store_true => mret (<[dest a := NsBool true]> ns)
  | store =>
      match value with
      | Some v => mret (<[dest a := NsStr v]> ns)
      | None => raise (SystemExit 2)
      end
  end.

Fixpoint take_actions (help_text : string) (acts : list (argument * option string))
    (ns : gmap string nsval) : M (gmap string nsval) :=
  match acts with
  | [] => mret ns
  | (a, v) :: acts' => ns' ← take_action help_text a v ns; take_actions help_text acts' ns'
  end.

(** Can [v] be the value of an option?  Not when it begins with a dash.
    ([argparse] does take a lone dash, a negative number, and a string with
    a dash and a space in it.) *)
Definition takes_value (v : string) : bool :=
  match v with
  | String "-" _ => false
  | _ => true
  end.

Definition is_short (o : string) : bool :=
  match o with
  | String "-" (String c "") => negb (bool_decide (c = "-"%char))
  | _ => false
  end.

(** The loop of [parse_known_args] and the final check of [parse_args]:
    [literal] after a [--], [extras] once an argument was left over.  An
    ambiguous abbreviation is refused when the loop gets to it ([argparse]
    refuses it before the first action runs). *)
Fixpoint consume (p : ArgumentParser) (help_text : string) (args : list string)
    (literal extras : bool) (ns : gmap string nsval) : M (gmap string nsval) :=
  match args with
  | [] => if extras then raise (SystemExit 2) else mret ns
  | arg :: rest =>
      if literal || bool_decide (arg = "--") then consume p help_text rest true true ns
      else
        match parse_optional p arg with
        | Extra => consume p help_text rest false true ns
        | Ambiguous => raise (SystemExit 2)
        | Optional a o explicit =>
            match arg_action a, explicit with
            | store, Some v =>
                ns' ← take_action help_text a (Some v) ns;
                consume p help_text rest false extras ns'
            | store, None =>
                match rest with
                | v :: rest' =>
                    if takes_value v then
                      ns' ← take_action help_text a (Some v) ns;
                      consume p help_text rest' false extras ns'
                    else raise (SystemExit 2)
                | [] => raise (SystemExit 2)
                end
            | _, None =>
                ns' ← take_action help_text a None ns;
                consume p help_text rest false extras ns'
            | _, Some e =>
                match (if is_short o then parse_group p e else None) with
                | Some acts =>
                    ns' ← take_actions help_text ((a, None) :: acts) ns;
                    consume p help_text rest false extras ns'
                | None => raise (SystemExit 2)
                end
            end
        end
  end.

(** [parser.parse_args(argv)] *)
Definition parse_args (p : ArgumentParser) (help_text : string) (argv : list string)
    : M (gmap string nsval) :=
  consume p help_text argv false false (defaults p).

(** An attribute of the namespace as the value a parameter takes. *)
Definition ns_get (ns : gmap string nsval) (attr : string) : nsval :=
  default NsNone (ns !! attr).

Definition as_bool (v : nsval) : bool :=
  match v with
  | NsBool b => b
  | NsStr s => negb (bool_decide (s = ""))
  | NsNone => false
  end.

Definition as_option (v : nsval) : option string :=
  match v with
  | NsStr s => Some s
  | NsBool b => Some (if b then "True" else "False")
  | NsNone => None
  end.

(** ['%s' % v] *)
Definition str (v : nsval) : string :=
  match v with
  | NsStr s => s
  | NsBool b => if b then "True" else "False"
  | NsNone => "None"
  end.

(** ** The module *)

(** The collaborator: [jupyter_client.kernelspec.KernelSpecManager], of
    which only [install_kernel_spec(source_dir, kernel_name, user, prefix)]
    is used. *)
Record KernelSpecManager := {
  install_kernel_spec : string → string → bool → option string → M string;
}.

(** A stub manager: it records its arguments and gives back a canned
    outcome, without touching the file system. *)
Definition stub_manager (canned : result string) : KernelSpecManager :=
  {| install_kernel_spec := λ source_dir kernel_name user prefix w,
       (canned, add_call (InstallCall source_dir kernel_name user prefix) w) |}.

(** What the module takes from the interpreter and the libraries around it. *)
Record runtime := Runtime {
  sys_executable : string;                      (* sys.executable *)
  sys_version_major : N;                        (* sys.version_info[0] *)
  module_file : string;                         (* __file__ *)
  tempdir : string;                             (* tempfile.gettempdir() *)
  TMP_MAX : nat;                                (* tempfile.TMP_MAX *)
  new_KernelSpecManager : KernelSpecManager;    (* KernelSpecManager() *)
  format_help : ArgumentParser → string;        (* parser.format_help() *)
}.

(** [tempfile.mkdtemp(suffix=suffix)] *)
Definition tempfile_mkdtemp (rt : runtime) (suffix : string) : M string :=
  mkdtemp_loop (TMP_MAX rt) (tempdir rt) "tmp" suffix.

(** ['python%i' % sys.version_info[0]] *)
Definition KERNEL_NAME (rt : runtime) : string :=
  "python" +:+ pretty (sys_version_major rt).

(** Path to the kernelspec resources. *)
Definition RESOURCES (rt : runtime) : string :=
  pjoin (dirname (module_file rt)) "resources".

(** *** Command builder *)

(** [make_ipkernel_cmd(mod='ipykernel', executable=None, extra_arguments=[], **kw)]
    on values.  [kw] collects the keyword arguments that match none of the
    three named parameters; the body never reads it. *)
Definition make_ipkernel_cmd {V : Type} (rt : runtime) (module : string)
    (executable : option string) (extra_arguments : list string)
    (kw : list (string * V)) : list string :=
  let executable :=
    match executable with
    | None => sys_executable rt
    | Some e => e
    end in
  let arguments := [executable; "-m"; module; "-f"; "{connection_file}"] in
  arguments ++ extra_arguments.

(** The call [make_ipkernel_cmd()]: every parameter at its default. *)
Definition make_ipkernel_cmd_default (rt : runtime) : list string :=
  make_ipkernel_cmd (V := pyobj) rt "ipykernel" None [] [].

(** *** Spec assembler *)

Definition get_kernel_dict (rt : runtime) : gmap string pyobj :=
  <["argv" := PyList (make_ipkernel_cmd_default rt)]>
  (<["display_name" := PyStr ("Python " +:+ pretty (sys_version_major rt))]>
  (<["language" := PyStr "python"]> ∅)).

(** *** Spec writer *)

Definition write_kernel_spec (rt : runtime) (path : option string) : M string :=
  path ← match path with
          | None =>
              tmp ← tempfile_mkdtemp rt "_kernels";
              mret (pjoin tmp (KERNEL_NAME rt))
          | Some path => mret path
          end;
  (* stage resources *)
  _ ← shutil_copytree (RESOURCES rt) path;
  (* write kernel.json *)
  _ ← write_file (pjoin path "kernel.json") (json_dump (get_kernel_dict rt) 1);
  mret path.

(** *** Installer *)

Definition install (rt : runtime) (kernel_spec_manager : option KernelSpecManager)
    (user : bool) (kernel_name : option string) (prefix : option string) : M string :=
  let kernel_spec_manager :=
    match kernel_spec_manager with
    | None => new_KernelSpecManager rt
    | Some ksm => ksm
    end in
  let kernel_name :=
    match kernel_name with
    | None => KERNEL_NAME rt
    | Some name => name
    end in
  path ← write_kernel_spec rt None;
  dest ← install_kernel_spec kernel_spec_manager path kernel_name user prefix;
  (* cleanup afterward *)
  _ ← shutil_rmtree path;
  mret dest.

(** *** Command-line entry point *)

Definition parser (rt : runtime) : ArgumentParser :=
  add_argument "--prefix" store NsNone
  (add_argument "--name" store (NsStr (KERNEL_NAME rt))
  (add_argument "--user" store_true (NsBool false)
  (new_ArgumentParser "Install the IPython kernel spec."))).

(** The body under [if __name__ == '__main__'], [argv] being [sys.argv[1:]]. *)
Definition main (rt : runtime) (argv : list string) : M unit :=
  opts ← parse_args (parser rt) (format_help rt (parser rt)) argv;
  dest ← install rt None (as_bool (ns_get opts "user"))
            (as_option (ns_get opts "name")) (as_option (ns_get opts "prefix"));
  print ("Installed kernelspec " +:+ str (ns_get opts "name") +:+ " in " +:+ dest).

(** ** Lists as shared objects

    [make_ipkernel_cmd] once more, on references: a Python list is an object
    in a heap, the default [extra_arguments=[]] is one list made when the
    [def] runs and shared by every call that leaves the parameter out. *)

Module Aliasing.

(** The list objects, by reference. *)
Abbreviation heap := (gmap positive (list string)).

(** [[x1, ..., xn]]: a new list object. *)
Definition new_list (items : list string) (h : heap) : positive * heap :=
  let r := fresh (dom h) in (r, <[r := items]> h).

(** [dst.extend(src)] *)
Definition list_extend (dst src : positive) (h : heap) : option heap :=
  match h !! dst, h !! src with
  | Some a, Some b => Some (<[dst := a ++ b]> h)
  | _, _ => None
  end.

(** The function object: it holds the default of [extra_arguments]. *)
Record function_object := { default_extra_arguments : positive }.

(** [def make_ipkernel_cmd(..., extra_arguments=[], **kw): ...] *)
Definition def_make_ipkernel_cmd (h : heap) : function_object * heap :=
  let '(r, h') := new_list [] h in ({| default_extra_arguments := r |}, h').

(** A call; [extra_arguments = None] when the caller leaves it out.  The
    result is the reference of the returned list, [None] when a reference
    is dangling. *)
Definition make_ipkernel_cmd {V : Type} (rt : runtime) (f : function_object)
    (module : string) (executable : option string)
    (extra_arguments : option positive) (kw : list (string * V)) (h : heap)
    : option (positive * heap) :=
  let extra_arguments :=
    match extra_arguments with
    | None => default_extra_arguments f
    | Some r => r
    end in
  let executable :=
    match executable with
    | None => sys_executable rt
    | Some e => e
    end in
  let '(arguments, h) :=
    new_list [executable; "-m"; module; "-f"; "{connection_file}"] h in
  match list_extend arguments extra_arguments h with
  | Some h => Some (arguments, h)
  | None => None
  end.

(** The arguments of one call. *)
Record call := Call {
  call_module : string;
  call_executable : option string;
  call_extra_arguments : option positive;
}.

(** Calls made one after the other; the references each returned. *)
Fixpoint run_calls (rt : runtime) (f : function_object) (cs : list call) (h : heap)
    : option (list positive * heap) :=
  match cs with
  | [] => Some ([], h)
  | c :: cs' =>
      match make_ipkernel_cmd (V := pyobj) rt f (call_module c)
              (call_executable c) (call_extra_arguments c) [] h with
      | Some (r, h1) =>
          match run_calls rt f cs' h1 with
          | Some (rs, h2) => Some (r :: rs, h2)
          | None => None
          end
      | None => None
      end
  end.

(** The list a call reads its extra arguments from. *)
Definition extra_of (f : function_object) (c : call) : positive :=
  match call_extra_arguments c with
  | None => default_extra_arguments f
  | Some r => r
  end.

Definition example_heap : heap := <[2%positive := ["--debug"]]> (<[1%positive := []]> ∅).

End Aliasing.

(** ** Notions the properties are stated with *)

(** [q] leads to a directory of [t]. *)
Definition is_dir (q : list string) (t : node) : Prop := ∃ m, fs_stat q t = inr (Dir m).

(** No directory of [t] is missing from [t']. *)
Definition keeps_dirs (t t' : node) : Prop := ∀ q, is_dir q t → is_dir q t'.

(** Two worlds that differ in the file system only. *)
Definition same_but_root (w w' : world) : Prop :=
  cwd w' = cwd w ∧ names w' = names w ∧ drawn w' = drawn w
  ∧ stdout w' = stdout w ∧ calls w' = calls w.

(** The text of [kernel.json]. *)
Definition kernel_json (rt : runtime) : string := json_dump (get_kernel_dict rt) 1.

(** Names without a slash, and those of them that name an entry of a
    directory. *)
Fixpoint slash_free (s : string) : bool :=
  match s with
  | "" => true
  | String c s' => negb (is_slash c) && slash_free s'
  end.

Definition simple_name (s : string) : bool :=
  slash_free s && negb (bool_decide (s = "")) && negb (bool_decide (s = "."))
  && negb (bool_decide (s = "..")).

(** The tokens of a value and of the items of a dict. *)
Definition tokens_of_list (l : list string) : list token :=
  match l with
  | [] => [TLBracket; TRBracket]
  | x :: l' => TLBracket :: TString x :: (y ← l'; [TComma; TString y]) ++ [TRBracket]
  end.

Definition tokens_of_value (v : pyobj) : list token :=
  match v with
  | PyStr s => [TString s]
  | PyList l => tokens_of_list l
  end.

Definition tokens_of_member (kv : string * pyobj) : list token :=
  TString kv.1 :: TColon :: tokens_of_value kv.2.

Definition tokens_of_items (items : list (string * pyobj)) : list token :=
  match items with
  | [] => [TLBrace; TRBrace]
  | kv :: items' =>
      TLBrace :: tokens_of_member kv
        ++ (kv' ← items'; TComma :: tokens_of_member kv') ++ [TRBrace]
  end.

(** The [j]-th name [mkdtemp] will try in [w]. *)
Definition temp_file (w : world) (j : nat) : string :=
  "tmp" +:+ names w (drawn w + j) +:+ "_kernels".

(** What staging needs of the world: the temporary directory [ptmp] is
    there, its [k]-th candidate name is the first free one, the resources
    are a directory [pres] that is not above the temporary directory, and
    what they call [kernel.json], if anything, is not a directory. *)
Record staging_ready (rt : runtime) (w : world) (k : nat) (ptmp pres : list string)
    (m entries : gmap string node) : Prop := {
  ready_attempts : k < TMP_MAX rt;
  ready_names : ∀ j, j ≤ k → slash_free (names w (drawn w + j)) = true;
  ready_tempdir : resolve (cwd w) (tempdir rt) = Some ptmp;
  ready_tempdir_dir : fs_stat ptmp (root w) = inr (Dir m);
  ready_taken : ∀ j, j < k → is_Some (m !! temp_file w j);
  ready_free : m !! temp_file w k = None;
  ready_resources : resolve (cwd w) (RESOURCES rt) = Some pres;
  ready_resources_dir : fs_stat pres (root w) = inr (Dir entries);
  ready_apart : ¬ pres `prefix_of` ptmp;
  ready_kernel_json : ∀ m', entries !! "kernel.json" ≠ Some (Dir m');
}.

(** One use of a flag of the entry point on the command line. *)
Inductive flag_use :=
  | UseUser
  | UseName (v : string)
  | UsePrefix (v : string).

Definition render (u : flag_use) : list string :=
  match u with
  | UseUser => ["--user"]
  | UseName v => ["--name"; v]
  | UsePrefix v => ["--prefix"; v]
  end.

Definition apply_use (ns : gmap string nsval) (u : flag_use) : gmap string nsval :=
  match u with
  | UseUser => <["user" := NsBool true]> ns
  | UseName v => <["name" := NsStr v]> ns
  | UsePrefix v => <["prefix" := NsStr v]> ns
  end.

Definition use_ok (u : flag_use) : bool :=
  match u with
  | UseUser => true
  | UseName v | UsePrefix v => takes_value v
  end.

(** A namespace with the attributes [user], [name] and [prefix], and no
    other. *)
Definition namespace_of (user : bool) (name : string) (prefix : option string)
    (ns : gmap string nsval) : Prop :=
  ns !! "user" = Some (NsBool user)
  ∧ ns !! "name" = Some (NsStr name)
  ∧ ns !! "prefix" = Some (match prefix with Some s => NsStr s | None => NsNone end)
  ∧ dom ns = ({["user"; "name"; "prefix"]} : gset string).

(** The argument lists made of the three flags and their values only. *)
Inductive accepted (rt : runtime) : list string → Prop :=
  | accepted_nil : accepted rt []
  | accepted_flag arg a o e rest :
      parse_optional (parser rt) arg = Optional a o e →
      dest a ∈ ["user"; "name"; "prefix"] →
      accepted rt rest → accepted rt (arg :: rest)
  | accepted_value arg a o v rest :
      parse_optional (parser rt) arg = Optional a o None →
      dest a ∈ ["name"; "prefix"] →
      accepted rt rest → accepted rt (arg :: v :: rest).

(** The options of the parser of the entry point. *)
Definition help_argument : argument := Argument ["-h"; "--help"] help "help" NsNone.
Definition user_argument : argument := Argument ["--user"] store_true "user" (NsBool false).
Definition name_argument (rt : runtime) : argument :=
  Argument ["--name"] store "name" (NsStr (KERNEL_NAME rt)).
Definition prefix_argument : argument := Argument ["--prefix"] store "prefix" NsNone.

Definition is_namespace (ns : gmap string nsval) : Prop :=
  ∃ user name prefix, namespace_of user name prefix ns.

(** Strings of 7-bit characters.  On these the strings of the model are the
    [str] values of Python 2.7, the JSON encoder is the one of CPython, and
    what [json.load] reads back is equal to what was written. *)
Definition seven_bit_char (c : ascii) : bool := bool_decide (N_of_ascii c < 128)%N.

Fixpoint seven_bit (s : string) : bool :=
  match s with
  | "" => true
  | String c s' => seven_bit_char c && seven_bit s'
  end.

(** Path names that have no [.] and no [..] among their names. *)
Definition dot_free (s : string) : bool :=
  forallb (λ c, negb (bool_decide (c = ".")) && negb (bool_decide (c = "..")))
    (split_slash s).

(** [n] at the end of the chain of directories [q], each of which holds the
    next and nothing else. *)
Fixpoint nest (q : list string) (n : node) : node :=
  match q with
  | [] => n
  | c :: q' => Dir {[c := nest q' n]}
  end.

(** Characters that are a newline or between space and tilde, and the
    strings made of them. *)
Definition plain_char (c : ascii) : bool :=
  let n := N_of_ascii c in
  bool_decide (n = 10%N) || (bool_decide (32 ≤ n)%N && bool_decide (n ≤ 126)%N).

Fixpoint plain (s : string) : bool :=
  match s with
  | "" => true
  | String c s' => plain_char c && plain s'
  end.

(** ** A small world to run the module in *)

Definition example_runtime : runtime :=
  Runtime "/usr/bin/python" 2
    "/usr/lib/python2.7/site-packages/ipykernel/kernelspec.py" "/tmp" 100
    (stub_manager (Return "/usr/share/jupyter/kernels/python2")) (λ _, "usage").

(** The same interpreter, with the module in a place where there are no
    resources. *)
Definition example_broken_runtime : runtime :=
  Runtime "/usr/bin/python" 2 "/nowhere/kernelspec.py" "/tmp" 100
    (stub_manager (Return "/usr/share/jupyter/kernels/python2")) (λ _, "usage").

Definition example_resources : gmap string node :=
  <["logo-32x32.png" := File "32"]> (<["logo-64x64.png" := File "64"]>
    (<["kernel.json" := File "stale"]> ∅)).

Definition example_root : node :=
  Dir (<["tmp" := Dir (<["tmpaaa_kernels" := Dir ∅]> ∅)]>
      (<["usr" := Dir (<["lib" := Dir (<["python2.7" := Dir
         (<["site-packages" := Dir (<["ipykernel" := Dir
            (<["resources" := Dir example_resources]> ∅)]> ∅)]> ∅)]> ∅)]> ∅)]> ∅)).

Definition example_names (n : nat) : string :=
  match n with
  | 0 => "aaa"
  | _ => "b" +:+ pretty n
  end.

Definition example_world : world :=
  World example_root [] example_names 0 [] [].

(** An interpreter whose [tempfile] gives up after one candidate name. *)
Definition example_impatient_runtime : runtime :=
  Runtime "/usr/bin/python" 2
    "/usr/lib/python2.7/site-packages/ipykernel/kernelspec.py" "/tmp" 1
    (stub_manager (Return "/usr/share/jupyter/kernels/python2")) (λ _, "usage").

(** An installation whose resources hold a directory where [kernel.json]
    goes. *)
Definition example_odd_runtime : runtime :=
  Runtime "/usr/bin/python" 2 "/opt/ipykernel/kernelspec.py" "/tmp" 100
    (stub_manager (Return "/usr/share/jupyter/kernels/python2")) (λ _, "usage").

Definition example_odd_world : world :=
  World
    (Dir (<["opt" := Dir (<["ipykernel" := Dir
            (<["resources" := Dir (<["kernel.json" := Dir ∅]> ∅)]> ∅)]> ∅)]> ∅))
    [] example_names 0 [] [].

(** A manager that takes its source directory away once it has installed
    it. *)
Definition example_moving_manager : KernelSpecManager :=
  {| install_kernel_spec := λ source_dir kernel_name user prefix,
       _ ← shutil_rmtree source_dir;
       mret ("/usr/share/jupyter/kernels/" +:+ kernel_name) |}.

(** * Properties *)

(** ** The command builder *)

(** C2: for every module name, executable and list of extra arguments,
    [make_ipkernel_cmd] returns [executable, "-m", module, "-f",
    "{connection_file}"] followed by the extra arguments in their order (the
    executable being [sys.executable] when none is given); called with no
    argument it returns five elements, the last of which is the placeholder
    ["{connection_file}"]. *)
Theorem make_ipkernel_cmd_spec (rt : runtime) :
  (∀ (V : Type) (module executable : string) (extra_arguments : list string)
     (kw : list (string * V)),
      make_ipkernel_cmd rt module (Some executable) extra_arguments kw
      = [executable; "-m"; module; "-f"; "{connection_file}"] ++ extra_arguments)
  ∧ (∀ (V : Type) (module : string) (extra_arguments : list string)
       (kw : list (string * V)),
      make_ipkernel_cmd rt module None extra_arguments kw
      = [sys_executable rt; "-m"; module; "-f"; "{connection_file}"]
        ++ extra_arguments)
  ∧ make_ipkernel_cmd_default rt
    = [sys_executable rt; "-m"; "ipykernel"; "-f"; "{connection_file}"]
  ∧ length (make_ipkernel_cmd_default rt) = 5
  ∧ last (make_ipkernel_cmd_default rt) = Some "{connection_file}".
Proof.
  repeat split; intros; reflexivity.
Qed.

(** C9: the extra keyword arguments are ignored: two calls that agree on
    [mod], [executable] and [extra_arguments] return equal lists, whatever
    keyword arguments each was given. *)
Theorem make_ipkernel_cmd_ignores_kw (rt : runtime) (V W : Type) (module : string)
    (executable : option string) (extra_arguments : list string)
    (kw1 : list (string * V)) (kw2 : list (string * W)) :
  make_ipkernel_cmd rt module executable extra_arguments kw1
  = make_ipkernel_cmd rt module executable extra_arguments kw2.
Proof.
  unfold make_ipkernel_cmd. destruct executable; reflexivity.
Qed.

(** ** The spec assembler *)

Lemma substring_of_suffix (s t : string) : substring_of t (s +:+ t).
Proof.
  exists s, "". f_equal. induction t as [|c t IH]; [done|].
  unfold String.append; fold String.append. by rewrite <- IH.
Qed.

(** C3: [get_kernel_dict] returns a dict with exactly the three keys [argv],
    [display_name] and [language]; [display_name] holds a string that
    contains the decimal numeral of the major version, [language] is
    ["python"], and [argv] is what the command builder returns by default. *)
Theorem get_kernel_dict_spec (rt : runtime) :
  dom (get_kernel_dict rt) = ({["argv"; "display_name"; "language"]} : gset string)
  ∧ size (get_kernel_dict rt) = 3
  ∧ (∃ display_name,
        get_kernel_dict rt !! "display_name" = Some (PyStr display_name)
        ∧ substring_of (pretty (sys_version_major rt)) display_name)
  ∧ get_kernel_dict rt !! "language" = Some (PyStr "python")
  ∧ get_kernel_dict rt !! "argv" = Some (PyList (make_ipkernel_cmd_default rt)).
Proof.
  unfold get_kernel_dict. split; [|split; [|split; [|split]]].
  - rewrite !dom_insert_L, dom_empty_L. set_solver.
  - rewrite !map_size_insert_None, map_size_empty; [done|by simplify_map_eq..].
  - eexists. split; [by simplify_map_eq|]. apply substring_of_suffix.
  - by simplify_map_eq.
  - by simplify_map_eq.
Qed.

(** ** The command builder on shared lists *)

Lemma new_list_fresh (items : list string) (h : Aliasing.heap) r h' :
  Aliasing.new_list items h = (r, h') →
  h !! r = None ∧ h' = <[r := items]> h.
Proof.
  unfold Aliasing.new_list. intros [= <- <-]. split; [|done].
  apply not_elem_of_dom, is_fresh.
Qed.

(** One call: the returned list is a new object, it holds what the builder
    on values returns, and every list that was there before is as it was. *)
Lemma make_ipkernel_cmd_call (rt : runtime) (V : Type) (f : Aliasing.function_object)
    (module : string) (executable : option string)
    (extra_arguments : option positive) (kw : list (string * V))
    (h : Aliasing.heap) (extra : list string) :
  h !! Aliasing.extra_of f (Aliasing.Call module executable extra_arguments) = Some extra →
  ∃ r h',
    Aliasing.make_ipkernel_cmd rt f module executable extra_arguments kw h = Some (r, h')
    ∧ h !! r = None
    ∧ h' = <[r := make_ipkernel_cmd rt module executable extra kw]> h.
Proof.
  unfold Aliasing.extra_of, Aliasing.make_ipkernel_cmd. intros Hextra.
  destruct (Aliasing.new_list _ h) as [r h1] eqn:Hnew. simpl in Hextra.
  apply new_list_fresh in Hnew as [Hr ->].
  exists r. eexists. split; [|split; [done|reflexivity]].
  unfold Aliasing.list_extend. rewrite lookup_insert_eq.
  assert (r ≠ match extra_arguments with
              | Some r0 => r0
              | None => Aliasing.default_extra_arguments f
              end) as Hne by (intros Heq; rewrite <- Heq in Hextra; congruence).
  rewrite (lookup_insert_ne _ _ _ _ Hne), Hextra.
  by rewrite insert_insert_eq.
Qed.

(** The default list is empty when the [def] has run. *)
Lemma def_make_ipkernel_cmd_empty (h h' : Aliasing.heap) (f : Aliasing.function_object) :
  Aliasing.def_make_ipkernel_cmd h = (f, h') →
  h' !! Aliasing.default_extra_arguments f = Some []
  ∧ ∀ l, is_Some (h !! l) → h' !! l = h !! l.
Proof.
  unfold Aliasing.def_make_ipkernel_cmd.
  destruct (Aliasing.new_list [] h) as [r h1] eqn:Hnew.
  apply new_list_fresh in Hnew as [Hr ->]. intros [= <- <-]. simpl.
  split; [apply lookup_insert_eq|].
  intros l [x Hl]. rewrite lookup_insert_ne; [done|]. intros <-. congruence.
Qed.

(** C8: [make_ipkernel_cmd] never mutates the list it is given as
    [extra_arguments]: it extends a list of its own.  Over any sequence of
    calls, every list that was there before is unchanged, so the shared
    default list stays empty, and each call returns a list that holds what
    its arguments determine; every call with the default arguments returns
    the same contents. *)
Theorem make_ipkernel_cmd_never_mutates (rt : runtime) (f : Aliasing.function_object)
    (cs : list Aliasing.call) (h : Aliasing.heap) :
  h !! Aliasing.default_extra_arguments f = Some [] →
  Forall (λ c, is_Some (h !! Aliasing.extra_of f c)) cs →
  ∃ rs h',
    Aliasing.run_calls rt f cs h = Some (rs, h')
    ∧ (∀ l, is_Some (h !! l) → h' !! l = h !! l)
    ∧ h' !! Aliasing.default_extra_arguments f = Some []
    ∧ (∀ i c r, cs !! i = Some c → rs !! i = Some r →
         h !! r = None
         ∧ h' !! r = Some (make_ipkernel_cmd (V := pyobj) rt (Aliasing.call_module c)
                             (Aliasing.call_executable c)
                             (default [] (h !! Aliasing.extra_of f c)) [])
         ∧ (c = Aliasing.Call "ipykernel" None None →
            h' !! r = Some (make_ipkernel_cmd_default rt))).
Proof.
  intros Hdflt Hlive.
  cut (∃ rs h',
    Aliasing.run_calls rt f cs h = Some (rs, h')
    ∧ (∀ l, is_Some (h !! l) → h' !! l = h !! l)
    ∧ (∀ i c r, cs !! i = Some c → rs !! i = Some r →
         h !! r = None
         ∧ h' !! r = Some (make_ipkernel_cmd (V := pyobj) rt (Aliasing.call_module c)
                             (Aliasing.call_executable c)
                             (default [] (h !! Aliasing.extra_of f c)) []))).
  { intros (rs & h' & Hrun & Hframe & Hres). exists rs, h'.
    split; [done|]. split; [done|]. split.
    - rewrite Hframe; [done|by rewrite Hdflt].
    - intros i c r Hc Hr. destruct (Hres i c r Hc Hr) as [Hnew Hcontent].
      split; [done|]. split; [done|]. intros ->.
      rewrite Hcontent. unfold Aliasing.extra_of; simpl. by rewrite Hdflt. }
  clear Hdflt. revert h Hlive.
  induction cs as [|c cs IH]; intros h Hlive.
  { exists [], h. split; [done|]. split; [done|]. intros i c r Hc. by destruct i. }
  apply Forall_cons in Hlive as [[extra Hextra] Hlive].
  destruct c as [module executable extra_arguments].
  destruct (make_ipkernel_cmd_call rt pyobj f module executable extra_arguments [] h extra Hextra)
    as (r & h1 & Hcall & Hr & ->).
  destruct (IH (<[r := make_ipkernel_cmd (V := pyobj) rt module executable extra []]> h))
    as (rs & h2 & Hrun & Hframe & Hres).
  { eapply Forall_impl; [exact Hlive|]. intros c [x Hx]; simpl.
    exists x. rewrite lookup_insert_ne; [done|]. intros Heq. congruence. }
  exists (r :: rs), h2. simpl. rewrite Hcall, Hrun. split; [done|].
  assert (∀ l, is_Some (h !! l) → r ≠ l) as Hold.
  { intros l [x Hx] Heq. congruence. }
  split.
  - intros l Hl. rewrite Hframe.
    + by rewrite lookup_insert_ne by (by apply Hold).
    + by rewrite lookup_insert_ne by (by apply Hold).
  - intros [|i] c r' Hc Hr'; simpl in *.
    + injection Hc as <-. injection Hr' as <-. split; [done|].
      rewrite Hframe by (rewrite lookup_insert_eq; eauto).
      rewrite lookup_insert_eq. simpl. by rewrite Hextra.
    + destruct (Hres i c r' Hc Hr') as [Hnew Hcontent].
      assert (r ≠ r') as Hne by (intros ->; by rewrite lookup_insert_eq in Hnew).
      rewrite lookup_insert_ne in Hnew by done. split; [done|].
      rewrite Hcontent. do 2 f_equal.
      assert (is_Some (h !! Aliasing.extra_of f c)) as Hc'.
      { rewrite Forall_forall in Hlive. apply Hlive.
        eapply list_elem_of_lookup_2, Hc. }
      by rewrite lookup_insert_ne by (by apply Hold).
Qed.

Lemma make_ipkernel_cmd_never_mutates_witness :
  ∃ rs h',
    Aliasing.run_calls example_runtime {| Aliasing.default_extra_arguments := 1 |}
      [Aliasing.Call "ipykernel" None None;
       Aliasing.Call "ipykernel" (Some "python") (Some 2%positive);
       Aliasing.Call "ipykernel" None None] Aliasing.example_heap = Some (rs, h')
    ∧ h' !! 1%positive = Some [].
Proof.
  destruct (make_ipkernel_cmd_never_mutates example_runtime
              {| Aliasing.default_extra_arguments := 1 |}
              [Aliasing.Call "ipykernel" None None;
               Aliasing.Call "ipykernel" (Some "python") (Some 2%positive);
               Aliasing.Call "ipykernel" None None] Aliasing.example_heap)
    as (rs & h' & Hrun & _ & Hdflt & _).
  - reflexivity.
  - repeat constructor; vm_compute; eauto.
  - exists rs, h'. split; [exact Hrun|exact Hdflt].
Defined.

(** ** The file system *)

Lemma split_last_snoc (p : list string) (c : string) : split_last (p ++ [c]) = Some (p, c).
Proof.
  induction p as [|a p IH]; [done|].
  simpl. rewrite IH. by destruct p.
Qed.

Lemma split_last_inv (p : list string) :
  match split_last p with
  | Some (q, c) => p = q ++ [c]
  | None => p = []
  end.
Proof.
  induction p as [|a p IH]; [done|].
  simpl. destruct p as [|b p]; [done|].
  destruct (split_last (b :: p)) as [[q c]|]; [|done].
  by rewrite IH.
Qed.

Lemma fs_stat_app (p q : list string) (t : node) :
  fs_stat (p ++ q) t
  = match fs_stat p t with
    | inr n => fs_stat q n
    | inl e => inl e
    end.
Proof.
  revert t. induction p as [|c p IH]; intros t; [done|].
  simpl. destruct t as [|m]; [done|].
  destruct (m !! c); [apply IH|done].
Qed.

Lemma fs_stat_below_file (q : list string) (s : string) (n : node) :
  fs_stat q (File s) = inr n → q = [].
Proof. by destruct q. Qed.

Lemma fs_stat_update_dir (p q : list string) f (t : node) m :
  fs_stat p t = inr (Dir m) →
  fs_stat (p ++ q) (fs_update_dir p f t) = fs_stat q (Dir (f m)).
Proof.
  revert t. induction p as [|c p IH]; intros t Hp.
  - simpl in Hp. injection Hp as ->. done.
  - simpl in Hp. destruct t as [|m0]; [done|].
    destruct (m0 !! c) as [n|] eqn:Hc; [|done].
    simpl. rewrite lookup_alter_eq, Hc. simpl. by apply IH.
Qed.

Lemma fs_update_dir_frame (p : list string) (name : string) (v : node) (t : node)
    (q : list string) :
  ¬ q `prefix_of` p → ¬ (p ++ [name]) `prefix_of` q →
  fs_stat q (fs_update_dir p (insert name v) t) = fs_stat q t.
Proof.
  revert q t. induction p as [|c p IH]; intros q t Hqp Hpq.
  - destruct q as [|b q]; [by destruct Hqp|].
    destruct t as [|m]; [done|]. simpl.
    rewrite lookup_insert_ne; [done|].
    intros ->. apply Hpq. apply prefix_cons, prefix_nil.
  - destruct q as [|b q]; [destruct Hqp; apply prefix_nil|].
    destruct t as [|m]; [done|]. simpl.
    destruct (decide (c = b)) as [->|Hne].
    + rewrite lookup_alter_eq. destruct (m !! b) as [n|]; [|done]. simpl.
      apply IH.
      * intros H. apply Hqp. by apply prefix_cons.
      * intros H. apply Hpq. by apply prefix_cons.
    + by rewrite lookup_alter_ne.
Qed.

(** An update that keeps the directories among the entries keeps every
    directory of the tree. *)
Lemma fs_update_dir_keeps_dirs (p : list string) f (t : node) (q : list string) :
  (∀ m c m', fs_stat p t = inr (Dir m) → m !! c = Some (Dir m') → f m !! c = Some (Dir m')) →
  is_dir q t → is_dir q (fs_update_dir p f t).
Proof.
  unfold is_dir. revert q t. induction p as [|c p IH]; intros q t Hf [mq Hq].
  - destruct t as [|m]; [by exists mq|]. simpl.
    destruct q as [|b q]; [by eexists|].
    simpl in *. destruct (m !! b) as [n|] eqn:Hb; [|done].
    destruct n as [s|m'].
    { apply fs_stat_below_file in Hq as Hq'; subst. done. }
    rewrite (Hf m b m' eq_refl Hb). by exists mq.
  - destruct t as [|m]; [by exists mq|]. simpl.
    destruct q as [|b q]; [by eexists|].
    simpl in *. destruct (decide (c = b)) as [->|Hne].
    + rewrite lookup_alter_eq. destruct (m !! b) as [n|] eqn:Hb; [|done]. simpl.
      apply IH; [|by exists mq].
      intros m1 c1 m1' H1. by apply Hf.
    + rewrite lookup_alter_ne by done. by exists mq.
Qed.

Lemma fs_stat_snoc_dir (p : list string) (c : string) (t : node) (n : node) :
  fs_stat (p ++ [c]) t = inr n → ∃ m, fs_stat p t = inr (Dir m) ∧ m !! c = Some n.
Proof.
  rewrite fs_stat_app. destruct (fs_stat p t) as [e|[s|m]]; [done..|].
  simpl. destruct (m !! c) as [n'|] eqn:Hc; [|done]. intros [= ->]. by exists m.
Qed.

Lemma fs_stat_snoc (p : list string) (c : string) (t : node) m :
  fs_stat p t = inr (Dir m) →
  fs_stat (p ++ [c]) t = match m !! c with Some n => inr n | None => inl ENOENT end.
Proof. intros Hp. rewrite fs_stat_app, Hp. simpl. by destruct (m !! c). Qed.

Lemma fs_stat_update_dir_eq (p : list string) f (t : node) m :
  fs_stat p t = inr (Dir m) → fs_stat p (fs_update_dir p f t) = inr (Dir (f m)).
Proof.
  intros Hp. pose proof (fs_stat_update_dir p [] f t m Hp) as H.
  by rewrite app_nil_r in H.
Qed.

(** *** mkdir *)

Lemma fs_mkdir_snoc (p : list string) (c : string) (t : node) :
  fs_mkdir (p ++ [c]) t
  = match fs_stat p t with
    | inl e => inl e
    | inr (File _) => inl ENOTDIR
    | inr (Dir m) =>
        match m !! c with
        | Some _ => inl EEXIST
        | None => inr (fs_update_dir p (insert c (Dir ∅)) t)
        end
    end.
Proof. unfold fs_mkdir. by rewrite split_last_snoc. Qed.

Lemma fs_mkdir_inv (p : list string) (t t' : node) :
  fs_mkdir p t = inr t' →
  ∃ q c m, p = q ++ [c] ∧ fs_stat q t = inr (Dir m) ∧ m !! c = None
           ∧ t' = fs_update_dir q (insert c (Dir ∅)) t.
Proof.
  unfold fs_mkdir. pose proof (split_last_inv p) as Hp.
  destruct (split_last p) as [[q c]|]; [|done].
  destruct (fs_stat q t) as [e|[s|m]] eqn:Hq; [done..|].
  destruct (m !! c) eqn:Hc; [done|]. intros [= <-]. by exists q, c, m.
Qed.

Lemma fs_mkdir_stat (p : list string) (t t' : node) :
  fs_mkdir p t = inr t' →
  fs_stat p t = inl ENOENT ∧ fs_stat p t' = inr (Dir ∅).
Proof.
  intros (q & c & m & -> & Hq & Hc & ->)%fs_mkdir_inv. split.
  - by rewrite (fs_stat_snoc _ _ _ _ Hq), Hc.
  - rewrite (fs_stat_update_dir _ _ _ _ _ Hq). simpl. by rewrite lookup_insert_eq.
Qed.

Lemma fs_mkdir_keeps_dirs (p : list string) (t t' : node) (q : list string) :
  fs_mkdir p t = inr t' → is_dir q t → is_dir q t'.
Proof.
  intros (p' & c & m & -> & Hp & Hc & ->)%fs_mkdir_inv.
  apply fs_update_dir_keeps_dirs. intros m0 c0 m' Hm0 Hc0.
  rewrite Hp in Hm0. injection Hm0 as <-.
  rewrite lookup_insert_ne; [done|]. intros <-. congruence.
Qed.

Lemma fs_mkdir_exists (p : list string) (t : node) (n : node) :
  fs_stat p t = inr n → fs_mkdir p t = inl EEXIST.
Proof.
  unfold fs_mkdir. pose proof (split_last_inv p) as Hp.
  destruct (split_last p) as [[q c]|]; [|done]. subst p.
  intros (m & -> & ->)%fs_stat_snoc_dir. done.
Qed.

(** *** makedirs *)

Lemma fs_makedirs_rev_inv (rp : list string) (t t' : node) :
  fs_makedirs_rev rp t = inr t' →
  ∃ t'', fs_mkdir (reverse rp) t'' = inr t' ∧ ∀ q, is_dir q t → is_dir q t''.
Proof.
  revert t t'. induction rp as [|c rhead IH]; intros t t'; [done|].
  cbn [fs_makedirs_rev].
  destruct rhead as [|b rhead']; [intros H; by exists t|].
  destruct (fs_stat (reverse (b :: rhead')) t) as [e|n]; [|intros H; by exists t].
  destruct (fs_makedirs_rev (b :: rhead') t) as [e'|t1] eqn:Hsub.
  - destruct e'; try done. intros H; by exists t.
  - intros H. exists t1. split; [done|]. intros q Hq.
    destruct (IH t t1 Hsub) as (t0 & Hmk & Hdirs).
    eapply fs_mkdir_keeps_dirs; [exact Hmk|]. by apply Hdirs.
Qed.

Lemma fs_makedirs_stat (p : list string) (t t' : node) :
  fs_makedirs p t = inr t' → fs_stat p t' = inr (Dir ∅).
Proof.
  unfold fs_makedirs. intros (t0 & Hmk & _)%fs_makedirs_rev_inv.
  rewrite reverse_involutive in Hmk. by apply fs_mkdir_stat in Hmk as [_ ?].
Qed.

Lemma fs_makedirs_keeps_dirs (p : list string) (t t' : node) (q : list string) :
  fs_makedirs p t = inr t' → is_dir q t → is_dir q t'.
Proof.
  unfold fs_makedirs. intros (t0 & Hmk & Hdirs)%fs_makedirs_rev_inv Hq.
  eapply fs_mkdir_keeps_dirs; [exact Hmk|]. by apply Hdirs.
Qed.

Lemma fs_makedirs_parent (p : list string) (c : string) (t : node) (n : node) :
  fs_stat p t = inr n → fs_makedirs (p ++ [c]) t = fs_mkdir (p ++ [c]) t.
Proof.
  intros Hp. unfold fs_makedirs. rewrite reverse_snoc. cbn [fs_makedirs_rev].
  assert (reverse (c :: reverse p) = p ++ [c]) as ->
    by (by rewrite reverse_cons, reverse_involutive).
  destruct (reverse p) as [|s l] eqn:Hrev; [done|].
  by rewrite <- Hrev, reverse_involutive, Hp.
Qed.

Lemma fs_makedirs_exists (p : list string) (t : node) (n : node) :
  fs_stat p t = inr n → fs_makedirs p t = inl EEXIST.
Proof.
  intros Hp. destruct p as [|a p'] using rev_ind; [done|].
  apply fs_stat_snoc_dir in Hp as Hp'. destruct Hp' as (m & Hq & _).
  rewrite (fs_makedirs_parent _ _ _ _ Hq). by eapply fs_mkdir_exists.
Qed.

(** *** write *)

Lemma fs_write_snoc (p : list string) (c : string) (s : string) (t : node) :
  fs_write (p ++ [c]) s t
  = match fs_stat p t with
    | inl e => inl e
    | inr (File _) => inl ENOTDIR
    | inr (Dir m) =>
        match m !! c with
        | Some (Dir _) => inl EISDIR
        | _ => inr (fs_update_dir p (insert c (File s)) t)
        end
    end.
Proof. unfold fs_write. by rewrite split_last_snoc. Qed.

Lemma fs_write_inv (p : list string) (s : string) (t t' : node) :
  fs_write p s t = inr t' →
  ∃ q c m, p = q ++ [c] ∧ fs_stat q t = inr (Dir m)
           ∧ (∀ m', m !! c ≠ Some (Dir m'))
           ∧ t' = fs_update_dir q (insert c (File s)) t.
Proof.
  unfold fs_write. pose proof (split_last_inv p) as Hp.
  destruct (split_last p) as [[q c]|]; [|done].
  destruct (fs_stat q t) as [e|[s0|m]] eqn:Hq; [done..|].
  destruct (m !! c) as [[s0|m0]|] eqn:Hc; [|done|].
  - intros [= <-]. exists q, c, m. by rewrite Hc.
  - intros [= <-]. exists q, c, m. by rewrite Hc.
Qed.

Lemma fs_write_keeps_dirs (p : list string) (s : string) (t t' : node) (q : list string) :
  fs_write p s t = inr t' → is_dir q t → is_dir q t'.
Proof.
  intros (p' & c & m & -> & Hp & Hc & ->)%fs_write_inv.
  apply fs_update_dir_keeps_dirs. intros m0 c0 m' Hm0 Hc0.
  rewrite Hp in Hm0. injection Hm0 as <-.
  rewrite lookup_insert_ne; [done|]. intros <-. by apply (Hc m').
Qed.

(** *** rmtree *)

Lemma fs_rmtree_gone (p : list string) (t t' : node) :
  fs_rmtree p t = inr t' → is_dir p t ∧ fs_stat p t' = inl ENOENT.
Proof.
  unfold fs_rmtree. destruct (fs_stat p t) as [e|[s|m]] eqn:Hp; [done..|].
  pose proof (split_last_inv p) as Hsplit.
  destruct (split_last p) as [[q c]|]; [|done]. subst p. intros [= <-].
  split; [by exists m|].
  apply fs_stat_snoc_dir in Hp as (mq & Hq & Hc).
  rewrite (fs_stat_update_dir _ _ _ _ _ Hq). simpl. by rewrite lookup_delete_eq.
Qed.

Lemma fs_rmtree_dir (p : list string) (c : string) (t : node) :
  is_dir (p ++ [c]) t → fs_rmtree (p ++ [c]) t = inr (fs_update_dir p (delete c) t).
Proof.
  intros [m Hm]. unfold fs_rmtree. by rewrite Hm, split_last_snoc.
Qed.
(** ** Path names *)

Lemma string_app_cons (c : ascii) (s t : string) : String c s +:+ t = String c (s +:+ t).
Proof. reflexivity. Qed.

Lemma string_app_assoc (s t u : string) : (s +:+ t) +:+ u = s +:+ t +:+ u.
Proof. induction s as [|c s IH]; [done|]. by rewrite !string_app_cons, IH. Qed.

Lemma split_slash_nonempty (s : string) : split_slash s ≠ [].
Proof.
  destruct s as [|c s]; [done|]. simpl.
  destruct (is_slash c); [done|]. by destruct (split_slash s).
Qed.

Lemma split_slash_app (a b : string) :
  split_slash (a +:+ String "/" b) = split_slash a ++ split_slash b.
Proof.
  induction a as [|c a IH]; [done|].
  rewrite string_app_cons. simpl. destruct (is_slash c).
  - by rewrite IH.
  - rewrite IH. pose proof (split_slash_nonempty a).
    by destruct (split_slash a).
Qed.

Lemma split_slash_slash_free (b : string) : slash_free b = true → split_slash b = [b].
Proof.
  induction b as [|c b IH]; [done|]. simpl.
  intros [Hc Hb]%andb_prop. destruct (is_slash c); [done|]. by rewrite IH.
Qed.

Lemma ends_with_slash_inv (a : string) :
  ends_with_slash a = true → ∃ a', a = a' +:+ "/".
Proof.
  induction a as [|c a IH]; [done|]. simpl. destruct a as [|c' a'].
  - unfold is_slash. intros ->%bool_decide_eq_true. by exists "".
  - intros [a0 ->]%IH. by exists (String c a0).
Qed.

Lemma starts_with_slash_app (a b : string) :
  a ≠ "" → starts_with_slash (a +:+ b) = starts_with_slash a.
Proof. by destruct a. Qed.

Lemma slash_free_not_starts (b : string) : slash_free b = true → starts_with_slash b = false.
Proof. destruct b as [|c b]; [done|]. simpl. by destruct (is_slash c). Qed.

Lemma walk_simple (dir : list string) (b : string) :
  simple_name b = true → walk dir b = dir ++ [b].
Proof.
  unfold simple_name, walk.
  intros [[[_ H1%negb_true_iff]%andb_prop H2%negb_true_iff]%andb_prop H3%negb_true_iff]%andb_prop.
  by rewrite H1, H2, H3.
Qed.

Lemma simple_name_slash_free (b : string) : simple_name b = true → slash_free b = true.
Proof. unfold simple_name. by intros [[[? _]%andb_prop _]%andb_prop _]%andb_prop. Qed.

(** Joining a simple name to a path name goes one step down. *)
Lemma resolve_pjoin (cwd : list string) (a b : string) (p : list string) :
  resolve cwd a = Some p → simple_name b = true →
  resolve cwd (pjoin a b) = Some (p ++ [b]).
Proof.
  intros Ha Hb. pose proof (simple_name_slash_free b Hb) as Hfree.
  assert (a ≠ "") as Hne by (by intros ->).
  unfold pjoin. rewrite (slash_free_not_starts b Hfree).
  rewrite bool_decide_eq_false_2 by done. simpl.
  assert (∀ s, s ≠ "" → resolve cwd s
    = Some (foldl walk (if starts_with_slash s then [] else cwd) (split_slash s))) as Hres.
  { by intros [|??]. }
  rewrite Hres in Ha by done. injection Ha as <-.
  destruct (ends_with_slash a) eqn:Hends.
  - apply ends_with_slash_inv in Hends as [a' ->].
    rewrite Hres by (by destruct a').
    rewrite string_app_assoc. change ("/" +:+ b) with (String "/" b).
    f_equal. rewrite !split_slash_app.
    rewrite (split_slash_slash_free b Hfree).
    change (split_slash "") with [""].
    rewrite !foldl_snoc.
    assert (starts_with_slash (a' +:+ String "/" b) = starts_with_slash (a' +:+ "/")) as ->
      by (by destruct a').
    by rewrite (walk_simple _ _ Hb).
  - rewrite Hres by (by destruct a).
    change ("/" +:+ b) with (String "/" b).
    rewrite split_slash_app, (split_slash_slash_free b Hfree), foldl_snoc.
    rewrite starts_with_slash_app by done.
    by rewrite (walk_simple _ _ Hb).
Qed.

Lemma pjoin_ends_with (a b : string) : ends_with (pjoin a b) b.
Proof.
  unfold pjoin, ends_with. destruct (starts_with_slash b); [by exists ""|].
  destruct (_ || _).
  - by exists a.
  - exists (a +:+ "/"). by rewrite string_app_assoc.
Qed.

Lemma slash_free_app (s t : string) :
  slash_free (s +:+ t) = slash_free s && slash_free t.
Proof.
  induction s as [|c s IH]; [done|].
  rewrite string_app_cons. simpl. rewrite IH. by rewrite andb_assoc.
Qed.

Lemma pretty_N_go_slash_free (x : N) (s : string) :
  slash_free s = true → slash_free (pretty_N_go x s) = true.
Proof.
  revert s. induction (N.lt_wf_0 x) as [x _ IH]; intros s Hs.
  destruct (decide (x = 0)%N) as [->|Hx]; [by rewrite pretty_N_go_0|].
  rewrite pretty_N_go_step by lia. apply IH.
  - apply N.div_lt; lia.
  - simpl. rewrite Hs, andb_true_r. unfold pretty_N_char.
    by repeat case_match.
Qed.

Lemma pretty_N_slash_free (x : N) : slash_free (pretty x) = true.
Proof.
  unfold pretty, pretty_N. case_decide; [done|]. by apply pretty_N_go_slash_free.
Qed.

Lemma KERNEL_NAME_simple (rt : runtime) : simple_name (KERNEL_NAME rt) = true.
Proof.
  unfold KERNEL_NAME, simple_name.
  rewrite slash_free_app, pretty_N_slash_free. done.
Qed.

Lemma temp_name_simple (name : string) :
  slash_free name = true → simple_name ("tmp" +:+ name +:+ "_kernels") = true.
Proof.
  intros Hname. unfold simple_name.
  rewrite !slash_free_app, Hname. done.
Qed.
(** ** JSON text *)

Lemma scan_string_escape_char (c : ascii) (rest : string) :
  scan_string (escape_char c +:+ rest)
  = match scan_string rest with
    | Some (str, toks) => Some (String c str, toks)
    | None => None
    end.
Proof.
  destruct c as [[] [] [] [] [] [] [] []]; reflexivity.
Qed.

Lemma scan_string_escape (s rest : string) :
  scan_string (escape s +:+ String dquote rest)
  = match scan rest with
    | Some toks => Some (s, toks)
    | None => None
    end.
Proof.
  induction s as [|c s IH]; [done|].
  cbn [escape]. rewrite string_app_assoc, scan_string_escape_char, IH.
  by destruct (scan rest).
Qed.

Lemma scan_encode (s rest : string) :
  scan (encode_basestring_ascii s +:+ rest) = cons (TString s) <$> scan rest.
Proof.
  unfold encode_basestring_ascii. rewrite string_app_cons.
  change (scan (String dquote ?x)) with
    (match scan_string x with
     | Some (str, toks) => Some (TString str :: toks)
     | None => None
     end).
  rewrite string_app_assoc. change (String dquote "" +:+ rest) with (String dquote rest).
  rewrite scan_string_escape. by destruct (scan rest).
Qed.

Lemma scan_spaces (n : nat) (rest : string) : scan (spaces n +:+ rest) = scan rest.
Proof.
  induction n as [|n IH]; [done|].
  cbn [spaces]. rewrite string_app_cons. exact IH.
Qed.

Lemma scan_newline_indent (indent level : nat) (rest : string) :
  scan (newline_indent indent level +:+ rest) = scan rest.
Proof.
  unfold newline_indent. rewrite string_app_cons. exact (scan_spaces _ rest).
Qed.

Lemma scan_separator (indent level : nat) (rest : string) :
  scan (", " +:+ newline_indent indent level +:+ rest) = cons TComma <$> scan rest.
Proof.
  change (scan (", " +:+ ?x)) with (cons TComma <$> scan x).
  by rewrite scan_newline_indent.
Qed.

Lemma scan_join_strings (indent level : nat) (x : string) (l : list string) (rest : string) :
  scan (join_items (", " +:+ newline_indent indent level)
          (encode_basestring_ascii <$> (x :: l)) +:+ rest)
  = (λ toks, TString x :: (y ← l; [TComma; TString y]) ++ toks) <$> scan rest.
Proof.
  revert x. induction l as [|y l IH]; intros x.
  - cbn [fmap list_fmap join_items]. rewrite scan_encode. by destruct (scan rest).
  - change (join_items ?sep (encode_basestring_ascii <$> x :: y :: l))
      with (encode_basestring_ascii x +:+ sep
            +:+ join_items sep (encode_basestring_ascii <$> (y :: l))).
    rewrite !string_app_assoc, scan_encode, scan_separator, IH.
    by destruct (scan rest).
Qed.

Lemma scan_list (indent level : nat) (l : list string) (rest : string) :
  scan (iterencode_list indent level l +:+ rest)
  = (λ toks, tokens_of_list l ++ toks) <$> scan rest.
Proof.
  destruct l as [|x l].
  - change (scan (iterencode_list indent level [] +:+ rest))
      with (cons TLBracket <$> (cons TRBracket <$> scan rest)).
    by destruct (scan rest).
  - unfold iterencode_list. rewrite !string_app_assoc.
    change (scan ("[" +:+ ?x)) with (cons TLBracket <$> scan x).
    rewrite scan_newline_indent, scan_join_strings, scan_newline_indent.
    change (scan ("]" +:+ rest)) with (cons TRBracket <$> scan rest).
    destruct (scan rest); [|done]. simpl. by rewrite <- app_assoc.
Qed.

Lemma scan_value (indent level : nat) (v : pyobj) (rest : string) :
  scan (iterencode_value indent level v +:+ rest)
  = (λ toks, tokens_of_value v ++ toks) <$> scan rest.
Proof.
  destruct v as [s|l]; [|apply scan_list].
  cbn [iterencode_value]. rewrite scan_encode. by destruct (scan rest).
Qed.

Lemma scan_member (indent level : nat) (kv : string * pyobj) (rest : string) :
  scan (encode_basestring_ascii kv.1 +:+ ": " +:+ iterencode_value indent level kv.2
        +:+ rest)
  = (λ toks, tokens_of_member kv ++ toks) <$> scan rest.
Proof.
  rewrite scan_encode.
  change (scan (": " +:+ ?x)) with (cons TColon <$> scan x).
  rewrite scan_value. by destruct (scan rest).
Qed.

Lemma scan_join_members (indent level : nat) (kv : string * pyobj)
    (items : list (string * pyobj)) (rest : string) :
  scan (join_items (", " +:+ newline_indent indent level)
          ((λ kv, encode_basestring_ascii kv.1 +:+ ": "
                   +:+ iterencode_value indent level kv.2) <$> (kv :: items)) +:+ rest)
  = (λ toks, tokens_of_member kv ++ (kv' ← items; TComma :: tokens_of_member kv') ++ toks)
      <$> scan rest.
Proof.
  revert kv. induction items as [|kv' items IH]; intros kv.
  - cbn [fmap list_fmap join_items]. rewrite !string_app_assoc, scan_member.
    by destruct (scan rest).
  - change (join_items ?sep (?f <$> kv :: kv' :: items))
      with (f kv +:+ sep +:+ join_items sep (f <$> (kv' :: items))).
    cbv beta. rewrite !string_app_assoc, scan_member, scan_separator, IH.
    destruct (scan rest); [|done]. simpl. by rewrite <- !app_assoc.
Qed.
Lemma scan_dict (indent : nat) (items : list (string * pyobj)) :
  scan (iterencode_dict indent 0 items) = Some (tokens_of_items items).
Proof.
  destruct items as [|kv items]; [done|].
  unfold iterencode_dict.
  change (scan ("{" +:+ ?x)) with (cons TLBrace <$> scan x).
  rewrite scan_newline_indent, scan_join_members, scan_newline_indent.
  done.
Qed.

Lemma parse_elements_tokens (l : list string) (rest : list token) :
  parse_elements ((y ← l; [TComma; TString y]) ++ TRBracket :: rest) = Some (l, rest).
Proof.
  induction l as [|y l IH]; [done|].
  rewrite bind_cons. cbn [app parse_elements]. by rewrite IH.
Qed.

Lemma parse_value_tokens (v : pyobj) (rest : list token) :
  parse_value (tokens_of_value v ++ rest) = Some (v, rest).
Proof.
  destruct v as [s|[|x l]]; [done..|].
  cbn [tokens_of_value tokens_of_list app parse_value].
  rewrite <- app_assoc. cbn [app]. by rewrite parse_elements_tokens.
Qed.

Lemma parse_members_tokens (items : list (string * pyobj)) (fuel : nat)
    (obj : gmap string pyobj) (rest : list token) :
  length items < fuel →
  parse_members fuel obj ((kv ← items; TComma :: tokens_of_member kv) ++ TRBrace :: rest)
  = Some (foldl (λ m kv, <[kv.1 := kv.2]> m) obj items, rest).
Proof.
  revert fuel obj. induction items as [|[k v] items IH]; intros fuel obj Hfuel.
  - destruct fuel; [lia|done].
  - destruct fuel as [|fuel]; [simpl in Hfuel; lia|].
    rewrite bind_cons. cbn [tokens_of_member fst snd app parse_members].
    rewrite <- app_assoc, parse_value_tokens. cbn [foldl fst snd app].
    apply IH. simpl in Hfuel. lia.
Qed.

Lemma members_length (items : list (string * pyobj)) :
  length items ≤ length (kv ← items; TComma :: tokens_of_member kv).
Proof.
  induction items as [|kv items IH]; [done|].
  rewrite bind_cons, length_app. simpl. lia.
Qed.

Lemma foldl_insert_to_list (m : gmap string pyobj) :
  foldl (λ m kv, <[kv.1 := kv.2]> m) ∅ (map_to_list m) = m.
Proof.
  assert (∀ (l : list (string * pyobj)) (obj : gmap string pyobj),
    foldl (λ m kv, <[kv.1 := kv.2]> m) obj l
    = foldr (λ kv m, <[kv.1 := kv.2]> m) obj (reverse l)) as Hrev.
  { induction l as [|kv l IH]; intros obj; [done|].
    simpl. by rewrite IH, reverse_cons, foldr_app. }
  rewrite Hrev. rewrite <- (list_to_map_to_list m) at 2.
  apply (list_to_map_proper (M := gmap string)).
  - rewrite fmap_reverse, reverse_Permutation. apply NoDup_fst_map_to_list.
  - apply reverse_Permutation.
Qed.

Lemma parse_object_tokens (m : gmap string pyobj) :
  parse_object (tokens_of_items (map_to_list m)) = Some m.
Proof.
  pose proof (foldl_insert_to_list m) as Hm.
  destruct (map_to_list m) as [|[k v] items].
  { simpl in *. by subst. }
  cbn [tokens_of_items tokens_of_member fst snd app parse_object].
  rewrite parse_value_tokens, parse_members_tokens.
  - by rewrite <- Hm, <- insert_empty.
  - rewrite length_app. pose proof (members_length items). simpl. lia.
Qed.

(** What [json.dump] writes, [json.load] reads back. *)
Lemma json_loads_dump (obj : gmap string pyobj) (indent : nat) :
  json_loads (json_dump obj indent) = Some obj.
Proof.
  unfold json_loads, json_dump. rewrite scan_dict. simpl.
  apply parse_object_tokens.
Qed.
(** ** The calls into the operating system *)

Lemma bind_M {A B} (m : M A) (k : A → M B) (w : world) :
  (m ≫= k) w
  = match m w with
    | (Return a, w') => k a w'
    | (Raise e, w') => (Raise e, w')
    end.
Proof. reflexivity. Qed.

Lemma kernel_json_simple : simple_name "kernel.json" = true.
Proof. reflexivity. Qed.

(** *** shutil.copytree *)

Lemma shutil_copytree_inv (src dst : string) (w w' : world) (u : unit) :
  shutil_copytree src dst w = (Return u, w') →
  ∃ ps pd entries t1,
    resolve (cwd w) src = Some ps ∧ fs_stat ps (root w) = inr (Dir entries)
    ∧ resolve (cwd w) dst = Some pd ∧ fs_makedirs pd (root w) = inr t1
    ∧ w' = set_root (fs_fill pd entries t1) w.
Proof.
  unfold shutil_copytree. rewrite bind_M. unfold os_listdir at 1.
  destruct (resolve (cwd w) src) as [ps|] eqn:Hsrc; [|done].
  destruct (fs_stat ps (root w)) as [e|[s|entries]] eqn:Hps; [done..|].
  rewrite bind_M. unfold os_makedirs at 1.
  destruct (resolve (cwd w) dst) as [pd|] eqn:Hdst; [|done].
  destruct (fs_makedirs pd (root w)) as [e|t1] eqn:Hmk; [done|].
  unfold copy_entries. simpl. rewrite Hdst. intros [= <-].
  exists ps, pd, entries, t1. by destruct w.
Qed.

Lemma shutil_copytree_ok (src dst : string) (w : world) ps pd entries t1 :
  resolve (cwd w) src = Some ps → fs_stat ps (root w) = inr (Dir entries) →
  resolve (cwd w) dst = Some pd → fs_makedirs pd (root w) = inr t1 →
  shutil_copytree src dst w = (Return (), set_root (fs_fill pd entries t1) w).
Proof.
  intros Hsrc Hps Hdst Hmk.
  unfold shutil_copytree. rewrite bind_M. unfold os_listdir at 1.
  rewrite Hsrc, Hps, bind_M. unfold os_makedirs at 1. rewrite Hdst, Hmk.
  unfold copy_entries. simpl. rewrite Hdst. by destruct w.
Qed.

Lemma shutil_copytree_fails (src dst : string) (w w' : world) (e : exn) :
  shutil_copytree src dst w = (Raise e, w') → w' = w.
Proof.
  unfold shutil_copytree. rewrite bind_M. unfold os_listdir at 1.
  destruct (resolve (cwd w) src) as [ps|] eqn:Hsrc; [|by intros [= _ <-]].
  destruct (fs_stat ps (root w)) as [e'|[s|entries]] eqn:Hps;
    [by intros [= _ <-]..|].
  rewrite bind_M. unfold os_makedirs at 1.
  destruct (resolve (cwd w) dst) as [pd|] eqn:Hdst; [|by intros [= _ <-]].
  destruct (fs_makedirs pd (root w)) as [e'|t1] eqn:Hmk; [by intros [= _ <-]|].
  unfold copy_entries. simpl. by rewrite Hdst.
Qed.

Lemma fs_fill_stat (p : list string) (entries : gmap string node) (t : node) m :
  fs_stat p t = inr (Dir m) → fs_stat p (fs_fill p entries t) = inr (Dir entries).
Proof. intros Hp. unfold fs_fill. by rewrite (fs_stat_update_dir_eq _ _ _ _ Hp). Qed.

Lemma fs_fill_keeps_dirs (p : list string) (entries : gmap string node) (t : node) :
  fs_stat p t = inr (Dir ∅) → keeps_dirs t (fs_fill p entries t).
Proof.
  intros Hp q. apply fs_update_dir_keeps_dirs. intros m c m' Hm.
  rewrite Hp in Hm. injection Hm as <-. by rewrite lookup_empty.
Qed.

(** *** The spec writer, given a path *)

Lemma write_kernel_spec_Some (rt : runtime) (path : string) (w : world) :
  write_kernel_spec rt (Some path) w
  = match shutil_copytree (RESOURCES rt) path w with
    | (Return _, w1) =>
        match write_file (pjoin path "kernel.json") (kernel_json rt) w1 with
        | (Return _, w2) => (Return path, w2)
        | (Raise e, w2) => (Raise e, w2)
        end
    | (Raise e, w1) => (Raise e, w1)
    end.
Proof.
  unfold write_kernel_spec, kernel_json, mbind, M_bind, mret, M_ret.
  destruct (shutil_copytree _ _ _) as [[u|e] w1]; [|done].
  by destruct (write_file _ _ _) as [[u'|e] w2].
Qed.

Lemma write_kernel_spec_None (rt : runtime) (w : world) :
  write_kernel_spec rt None w
  = match tempfile_mkdtemp rt "_kernels" w with
    | (Return tmp, w1) => write_kernel_spec rt (Some (pjoin tmp (KERNEL_NAME rt))) w1
    | (Raise e, w1) => (Raise e, w1)
    end.
Proof.
  unfold write_kernel_spec, mbind, M_bind, mret, M_ret.
  by destruct (tempfile_mkdtemp _ _ _) as [[tmp|e] w1].
Qed.

Lemma write_file_inv (file content : string) (w w' : world) (u : unit) :
  write_file file content w = (Return u, w') →
  ∃ p t, resolve (cwd w) file = Some p ∧ fs_write p content (root w) = inr t
         ∧ w' = set_root t w.
Proof.
  unfold write_file. destruct (resolve (cwd w) file) as [p|]; [|done].
  destruct (fs_write p content (root w)) as [e|t] eqn:Hw; [done|].
  intros [= <-]. by exists p, t.
Qed.

Lemma write_file_fails (file content : string) (w w' : world) (e : exn) :
  write_file file content w = (Raise e, w') → w' = w.
Proof.
  unfold write_file. destruct (resolve (cwd w) file) as [p|]; [|by intros [= _ <-]].
  by destruct (fs_write p content (root w)) as [e'|t]; intros [= ? <-].
Qed.

(** What a successful call with an explicit path has done. *)
Lemma write_kernel_spec_Some_inv (rt : runtime) (path p : string) (w w' : world) :
  write_kernel_spec rt (Some path) w = (Return p, w') →
  p = path ∧ same_but_root w w'
  ∧ ∃ pres pp entries,
      resolve (cwd w) (RESOURCES rt) = Some pres
      ∧ fs_stat pres (root w) = inr (Dir entries)
      ∧ resolve (cwd w) path = Some pp
      ∧ (∃ e, fs_stat pp (root w) = inl e)
      ∧ fs_stat pp (root w')
        = inr (Dir (<["kernel.json" := File (kernel_json rt)]> entries))
      ∧ keeps_dirs (root w) (root w').
Proof.
  rewrite write_kernel_spec_Some.
  destruct (shutil_copytree _ _ _) as [[u|e] w1] eqn:Hcopy; [|done].
  destruct (write_file _ _ _) as [[u'|e] w2] eqn:Hwrite; [|done].
  intros [= <- <-]. split; [done|].
  apply shutil_copytree_inv in Hcopy
    as (pres & pp & entries & t1 & Hres & Hentries & Hpath & Hmk & ->).
  apply write_file_inv in Hwrite as (pk & t3 & Hpk & Hwr & ->).
  cbn [cwd set_root root] in *.
  rewrite (resolve_pjoin _ _ _ _ Hpath kernel_json_simple) in Hpk. injection Hpk as <-.
  pose proof (fs_makedirs_stat _ _ _ Hmk) as Hpp1.
  pose proof (fs_fill_stat _ entries _ _ Hpp1) as Hpp2.
  rewrite fs_write_snoc, Hpp2 in Hwr.
  split; [done|]. exists pres, pp, entries.
  repeat split; try done.
  - destruct (fs_stat pp (root w)) as [e|n] eqn:Hpp; [by exists e|].
    by rewrite (fs_makedirs_exists _ _ _ Hpp) in Hmk.
  - destruct (entries !! "kernel.json") as [[s|m']|] eqn:Hkj; [|done|];
      injection Hwr as <-; by rewrite (fs_stat_update_dir_eq _ _ _ _ Hpp2).
  - intros q Hq. eapply (fs_write_keeps_dirs (pp ++ ["kernel.json"])).
    { rewrite fs_write_snoc, Hpp2. exact Hwr. }
    apply fs_fill_keeps_dirs; [done|]. by eapply fs_makedirs_keeps_dirs.
Qed.
Lemma os_mkdir_ok (file : string) (w : world) (p : list string) (c : string) m :
  resolve (cwd w) file = Some (p ++ [c]) → fs_stat p (root w) = inr (Dir m) →
  m !! c = None →
  os_mkdir file w = (Return (), set_root (fs_update_dir p (insert c (Dir ∅)) (root w)) w).
Proof.
  intros Hfile Hp Hc. unfold os_mkdir. by rewrite Hfile, fs_mkdir_snoc, Hp, Hc.
Qed.

Lemma os_mkdir_taken (file : string) (w : world) (p : list string) (c : string) m :
  resolve (cwd w) file = Some (p ++ [c]) → fs_stat p (root w) = inr (Dir m) →
  is_Some (m !! c) →
  os_mkdir file w = (Raise (OSError EEXIST file), w).
Proof.
  intros Hfile Hp [n Hc]. unfold os_mkdir. by rewrite Hfile, fs_mkdir_snoc, Hp, Hc.
Qed.

Lemma mkdtemp_loop_step (n : nat) (dir pre suf : string) (w : world) :
  mkdtemp_loop (S n) dir pre suf w
  = let w1 := set_drawn (S (drawn w)) w in
    let file := pjoin dir (pre +:+ names w (drawn w) +:+ suf) in
    match os_mkdir file w1 with
    | (Return _, w') => (Return file, w')
    | (Raise (OSError EEXIST _), w') => mkdtemp_loop n dir pre suf w'
    | (Raise e, w') => (Raise e, w')
    end.
Proof. reflexivity. Qed.

(** [mkdtemp] skips the candidates that are taken and makes the first free
    one. *)
Lemma mkdtemp_loop_ok (k n : nat) (dir : string) (w : world) (pdir : list string) m :
  k < n →
  (∀ j, j ≤ k → slash_free (names w (drawn w + j)) = true) →
  resolve (cwd w) dir = Some pdir → fs_stat pdir (root w) = inr (Dir m) →
  (∀ j, j < k → is_Some (m !! temp_file w j)) →
  m !! temp_file w k = None →
  mkdtemp_loop n dir "tmp" "_kernels" w
  = (Return (pjoin dir (temp_file w k)),
     set_root (fs_update_dir pdir (insert (temp_file w k) (Dir ∅)) (root w))
       (set_drawn (drawn w + k + 1) w)).
Proof.
  revert n w. induction k as [|k IH]; intros n w Hn Hnames Hdir Hpdir Htaken Hfree.
  - destruct n as [|n]; [lia|]. rewrite mkdtemp_loop_step. cbv zeta.
    unfold temp_file in *. rewrite Nat.add_0_r in *.
    erewrite os_mkdir_ok; [| |exact Hpdir|exact Hfree].
    + by rewrite Nat.add_1_r.
    + apply resolve_pjoin; [exact Hdir|]. apply temp_name_simple.
      specialize (Hnames 0). rewrite Nat.add_0_r in Hnames. apply Hnames. lia.
  - destruct n as [|n]; [lia|]. rewrite mkdtemp_loop_step. cbv zeta.
    erewrite os_mkdir_taken; [| |exact Hpdir|].
    + rewrite (IH n (set_drawn (S (drawn w)) w)); try done.
      * unfold temp_file. cbn [names drawn root set_drawn].
        replace (S (drawn w) + k) with (drawn w + S k) by lia.
        replace (drawn w + S k + 1) with (S (drawn w) + k + 1) by lia.
        by destruct w.
      * lia.
      * intros j Hj. cbn [names drawn set_drawn].
        replace (S (drawn w) + j) with (drawn w + S j) by lia. apply Hnames. lia.
      * intros j Hj. unfold temp_file. cbn [names drawn set_drawn].
        replace (S (drawn w) + j) with (drawn w + S j) by lia.
        apply (Htaken (S j)). lia.
      * unfold temp_file in *. cbn [names drawn set_drawn].
        by replace (S (drawn w) + k) with (drawn w + S k) by lia.
    + apply resolve_pjoin; [exact Hdir|]. apply temp_name_simple.
      specialize (Hnames 0). rewrite Nat.add_0_r in Hnames. apply Hnames. lia.
    + specialize (Htaken 0). unfold temp_file in Htaken.
      rewrite Nat.add_0_r in Htaken. apply Htaken. lia.
Qed.

(** Whatever [mkdtemp] does, nothing but the file system and the count of
    names drawn changes, and no directory goes away; the directory it
    returns is new and empty. *)
Lemma mkdtemp_loop_any (n : nat) (dir pre suf : string) (w w' : world)
    (r : result string) :
  mkdtemp_loop n dir pre suf w = (r, w') →
  cwd w' = cwd w ∧ stdout w' = stdout w ∧ calls w' = calls w
  ∧ keeps_dirs (root w) (root w')
  ∧ ∀ tmp, r = Return tmp →
      ∃ p, resolve (cwd w) tmp = Some p
           ∧ fs_stat p (root w) = inl ENOENT ∧ fs_stat p (root w') = inr (Dir ∅).
Proof.
  revert w. induction n as [|n IH]; intros w.
  { cbn [mkdtemp_loop]. unfold raise. intros [= <- <-].
    repeat split; try done. by intros q. }
  rewrite mkdtemp_loop_step. cbv zeta.
  set (file := pjoin dir (pre +:+ names w (drawn w) +:+ suf)).
  unfold os_mkdir. cbn [cwd root set_drawn].
  destruct (resolve (cwd w) file) as [p|] eqn:Hfile.
  2:{ intros [= <- <-]. repeat split; try done. by intros q. }
  destruct (fs_mkdir p (root w)) as [e|t] eqn:Hmk.
  - assert (∀ r0 w0, (r0, w0) = (r, w') →
            w0 = set_drawn (S (drawn w)) w → r0 = Raise (OSError e file) →
            cwd w' = cwd w ∧ stdout w' = stdout w ∧ calls w' = calls w
            ∧ keeps_dirs (root w) (root w')
            ∧ ∀ tmp, r = Return tmp →
                ∃ p, resolve (cwd w) tmp = Some p
                     ∧ fs_stat p (root w) = inl ENOENT
                     ∧ fs_stat p (root w') = inr (Dir ∅)) as Hfail.
    { intros r0 w0 [= <- <-] -> ->. repeat split; try done. by intros q. }
    destruct e; try (intros H; by eapply Hfail).
    intros H. apply IH in H as (Hcwd & Hout & Hcalls & Hdirs & Hnew).
    cbn [cwd stdout calls root set_drawn] in *. by repeat split.
  - intros [= <- <-]. cbn [cwd stdout calls root set_drawn set_root].
    repeat split; try done.
    + intros q. by eapply fs_mkdir_keeps_dirs.
    + intros tmp [= <-]. exists p. split; [done|]. by apply fs_mkdir_stat.
Qed.
(** ** The spec writer *)

Lemma example_staging_ready :
  staging_ready example_runtime example_world 1 ["tmp"]
    ["usr"; "lib"; "python2.7"; "site-packages"; "ipykernel"; "resources"]
    (<["tmpaaa_kernels" := Dir ∅]> ∅) example_resources.
Proof.
  split.
  - vm_compute. lia.
  - intros j Hj. assert (j = 0 ∨ j = 1) as [-> | ->] by lia; reflexivity.
  - reflexivity.
  - reflexivity.
  - intros j Hj. assert (j = 0) as -> by lia. vm_compute. eauto.
  - reflexivity.
  - reflexivity.
  - reflexivity.
  - intros [l Hl]. discriminate Hl.
  - intros m' Hm'. vm_compute in Hm'. discriminate Hm'.
Qed.

(** A call with an explicit path returns when the resources are a directory,
    the parent of the destination is one too, and the destination is free. *)
Lemma write_kernel_spec_Some_ok (rt : runtime) (path : string) (w : world)
    (pres parent : list string) (name : string) (entries m : gmap string node) :
  resolve (cwd w) (RESOURCES rt) = Some pres →
  fs_stat pres (root w) = inr (Dir entries) →
  resolve (cwd w) path = Some (parent ++ [name]) →
  fs_stat parent (root w) = inr (Dir m) → m !! name = None →
  (∀ m', entries !! "kernel.json" ≠ Some (Dir m')) →
  ∃ w', write_kernel_spec rt (Some path) w = (Return path, w').
Proof.
  intros Hres Hentries Hpath Hparent Hname Hkj.
  rewrite write_kernel_spec_Some.
  assert (fs_makedirs (parent ++ [name]) (root w)
          = inr (fs_update_dir parent (insert name (Dir ∅)) (root w))) as Hmk.
  { by rewrite (fs_makedirs_parent _ _ _ _ Hparent), fs_mkdir_snoc, Hparent, Hname. }
  rewrite (shutil_copytree_ok _ _ _ _ _ _ _ Hres Hentries Hpath Hmk).
  unfold write_file. cbn [cwd root set_root].
  rewrite (resolve_pjoin _ _ _ _ Hpath kernel_json_simple), fs_write_snoc.
  rewrite (fs_fill_stat _ entries _ _ (fs_makedirs_stat _ _ _ Hmk)).
  destruct (entries !! "kernel.json") as [[s|m']|] eqn:Hk; [by eexists| |by eexists].
  by destruct (Hkj m').
Qed.

(** Whatever a call with an explicit path does, only the file system
    changes, and no directory goes away. *)
Lemma write_kernel_spec_Some_any (rt : runtime) (path : string) (w w' : world)
    (r : result string) :
  write_kernel_spec rt (Some path) w = (r, w') →
  same_but_root w w' ∧ keeps_dirs (root w) (root w').
Proof.
  destruct r as [p|e].
  { intros (_ & Hsame & _ & _ & _ & _ & _ & _ & _ & _ & Hdirs)%write_kernel_spec_Some_inv.
    done. }
  rewrite write_kernel_spec_Some.
  destruct (shutil_copytree _ _ _) as [[u|e1] w1] eqn:Hcopy.
  - destruct (write_file _ _ _) as [[u'|e2] w2] eqn:Hwrite; [done|].
    intros [= <- <-]. apply write_file_fails in Hwrite as ->.
    apply shutil_copytree_inv in Hcopy
      as (pres & pp & entries & t1 & Hres & Hentries & Hpath & Hmk & ->).
    split; [done|]. cbn [root set_root]. intros q Hq.
    apply fs_fill_keeps_dirs; [by eapply fs_makedirs_stat|].
    by eapply fs_makedirs_keeps_dirs.
  - intros [= <- <-]. apply shutil_copytree_fails in Hcopy as ->.
    split; [done|]. by intros q.
Qed.

(** Staging into a fresh temporary directory. *)
Lemma write_kernel_spec_None_ok (rt : runtime) (w : world) (k : nat)
    (ptmp pres : list string) (m entries : gmap string node) :
  staging_ready rt w k ptmp pres m entries →
  let tmp := pjoin (tempdir rt) (temp_file w k) in
  let path := pjoin tmp (KERNEL_NAME rt) in
  ∃ w',
    write_kernel_spec rt None w = (Return path, w')
    ∧ cwd w' = cwd w ∧ drawn w' = drawn w + k + 1
    ∧ stdout w' = stdout w ∧ calls w' = calls w
    ∧ resolve (cwd w) tmp = Some (ptmp ++ [temp_file w k])
    ∧ resolve (cwd w) path = Some ((ptmp ++ [temp_file w k]) ++ [KERNEL_NAME rt])
    ∧ fs_stat (ptmp ++ [temp_file w k]) (root w) = inl ENOENT
    ∧ fs_stat ((ptmp ++ [temp_file w k]) ++ [KERNEL_NAME rt]) (root w')
      = inr (Dir (<["kernel.json" := File (kernel_json rt)]> entries))
    ∧ keeps_dirs (root w) (root w').
Proof.
  intros [Hk Hnames Htmp Htmpdir Htaken Hfree Hres Hentries Hapart Hkj] tmp path.
  assert (resolve (cwd w) tmp = Some (ptmp ++ [temp_file w k])) as Htmp'.
  { apply resolve_pjoin; [done|]. apply temp_name_simple, Hnames. lia. }
  assert (resolve (cwd w) path = Some ((ptmp ++ [temp_file w k]) ++ [KERNEL_NAME rt]))
    as Hpath.
  { apply resolve_pjoin; [done|]. apply KERNEL_NAME_simple. }
  assert (fs_stat (ptmp ++ [temp_file w k]) (root w) = inl ENOENT) as Hfresh.
  { by rewrite (fs_stat_snoc _ _ _ _ Htmpdir), Hfree. }
  rewrite write_kernel_spec_None. unfold tempfile_mkdtemp.
  rewrite (mkdtemp_loop_ok k _ _ _ _ _ Hk Hnames Htmp Htmpdir Htaken Hfree).
  fold tmp. fold path.
  set (w1 := set_root _ _).
  assert (fs_stat pres (root w1) = inr (Dir entries)) as Hentries1.
  { unfold w1. cbn [root set_root set_drawn]. rewrite fs_update_dir_frame; [done..|].
    intros [suffix ->]. rewrite fs_stat_app, Hfresh in Hentries. done. }
  assert (fs_stat (ptmp ++ [temp_file w k]) (root w1) = inr (Dir ∅)) as Hempty.
  { unfold w1. cbn [root set_root set_drawn].
    rewrite (fs_stat_update_dir _ _ _ _ _ Htmpdir). simpl. by rewrite lookup_insert_eq. }
  destruct (write_kernel_spec_Some_ok rt path w1 pres (ptmp ++ [temp_file w k])
              (KERNEL_NAME rt) entries ∅) as [w' Hw']; try done.
  exists w'. split; [done|].
  apply write_kernel_spec_Some_inv in Hw'
    as (_ & (Hcwd & _ & Hdrawn & Hout & Hcalls) & pres' & pp & entries' & Hres' & Hentries'
        & Hpp & _ & Hstat & Hdirs).
  cbn [cwd w1 set_root set_drawn] in Hres', Hpp, Hcwd.
  rewrite Hres in Hres'. injection Hres' as <-.
  rewrite Hentries1 in Hentries'. injection Hentries' as <-.
  rewrite Hpath in Hpp. injection Hpp as <-.
  repeat split; try done.
  intros q Hq. apply Hdirs. unfold w1. cbn [root set_root set_drawn].
  eapply (fs_mkdir_keeps_dirs (ptmp ++ [temp_file w k])); [|done].
  by rewrite fs_mkdir_snoc, Htmpdir, Hfree.
Qed.
Lemma exists_in_stat (w : world) (s : string) (p : list string) :
  resolve (cwd w) s = Some p →
  exists_in w s = match fs_stat p (root w) with inr _ => true | inl _ => false end.
Proof. intros Hs. unfold exists_in. by rewrite Hs. Qed.

(** C4: called with no path, in a world that is ready for staging, with a
    7-bit [sys.executable] and no [.] or [..] in the names of the temporary
    directory and of the resources,
    [write_kernel_spec] makes a temporary directory [tmp] that was not there
    before (named after the first candidate name that is free), returns
    [tmp] joined with the kernel name, so a path that ends in [KERNEL_NAME];
    the directory at that path holds the entries of the resources and a
    [kernel.json] whose text [json.load] reads back as the dict of
    [get_kernel_dict]. *)
Theorem write_kernel_spec_no_path (rt : runtime) (w : world) (k : nat)
    (ptmp pres : list string) (m entries : gmap string node) :
  staging_ready rt w k ptmp pres m entries →
  seven_bit (sys_executable rt) = true →
  dot_free (tempdir rt) = true → dot_free (RESOURCES rt) = true →
  ∃ tmp path w' content,
    write_kernel_spec rt None w = (Return path, w')
    ∧ tmp = pjoin (tempdir rt) (temp_file w k)
    ∧ exists_in w tmp = false
    ∧ (∃ ptmpdir, resolve (cwd w') tmp = Some ptmpdir ∧ is_dir ptmpdir (root w'))
    ∧ path = pjoin tmp (KERNEL_NAME rt)
    ∧ ends_with path (KERNEL_NAME rt)
    ∧ (∃ pp, resolve (cwd w') path = Some pp
             ∧ fs_stat pp (root w')
               = inr (Dir (<["kernel.json" := File content]> entries)))
    ∧ json_loads content = Some (get_kernel_dict rt).
Proof.
  intros Hready _ _ _.
  destruct (write_kernel_spec_None_ok rt w k ptmp pres m entries Hready)
    as (w' & Hrun & Hcwd & _ & _ & _ & Htmp & Hpath & Hfresh & Hstat & _).
  exists (pjoin (tempdir rt) (temp_file w k)),
    (pjoin (pjoin (tempdir rt) (temp_file w k)) (KERNEL_NAME rt)), w', (kernel_json rt).
  split; [exact Hrun|]. split; [reflexivity|].
  split; [by rewrite (exists_in_stat _ _ _ Htmp), Hfresh|].
  split.
  { exists (ptmp ++ [temp_file w k]). rewrite Hcwd. split; [exact Htmp|].
    apply fs_stat_snoc_dir in Hstat as (m' & Hm' & _). by exists m'. }
  split; [reflexivity|]. split; [apply pjoin_ends_with|].
  split; [|exact (json_loads_dump (get_kernel_dict rt) 1)].
  exists ((ptmp ++ [temp_file w k]) ++ [KERNEL_NAME rt]). rewrite Hcwd.
  split; [exact Hpath|exact Hstat].
Qed.

Lemma write_kernel_spec_no_path_witness :
  ∃ path w',
    write_kernel_spec example_runtime None example_world = (Return path, w')
    ∧ path = "/tmp/tmpb1_kernels/python2"
    ∧ ends_with path "python2".
Proof.
  destruct (write_kernel_spec_no_path example_runtime example_world 1 ["tmp"]
              ["usr"; "lib"; "python2.7"; "site-packages"; "ipykernel"; "resources"]
              (<["tmpaaa_kernels" := Dir ∅]> ∅) example_resources example_staging_ready
              eq_refl eq_refl eq_refl)
    as (tmp & path & w' & content & Hrun & -> & _ & _ & -> & Hends & _).
  eexists _, w'. split; [exact Hrun|]. split; [reflexivity|exact Hends].
Defined.



(** C5: after a call with an explicit path, a second call with the same
    path never returns: it raises and leaves the world as it is.  When the
    first call returned, the path is there and the second call raises the
    [OSError] of [os.makedirs] for a destination that exists.  So two calls
    with one explicit path are not idempotent. *)
Theorem write_kernel_spec_twice (rt : runtime) (path : string) (w w1 : world)
    (r1 : result string) :
  write_kernel_spec rt (Some path) w = (r1, w1) →
  ∃ e,
    write_kernel_spec rt (Some path) w1 = (Raise e, w1)
    ∧ (∀ p, r1 = Return p → p = path ∧ e = OSError EEXIST path ∧ exists_in w1 path = true).
Proof.
  assert (∀ pres pp (entries : gmap string node) n,
    resolve (cwd w1) (RESOURCES rt) = Some pres → is_dir pres (root w1) →
    resolve (cwd w1) path = Some pp → fs_stat pp (root w1) = inr n →
    write_kernel_spec rt (Some path) w1 = (Raise (OSError EEXIST path), w1)) as Hsecond.
  { intros pres pp _ n Hres [entries Hentries] Hpp Hn.
    rewrite write_kernel_spec_Some. unfold shutil_copytree.
    rewrite bind_M. unfold os_listdir at 1. rewrite Hres, Hentries, bind_M.
    unfold os_makedirs at 1. by rewrite Hpp, (fs_makedirs_exists _ _ _ Hn). }
  intros Hfirst. destruct r1 as [p|e1].
  - apply write_kernel_spec_Some_inv in Hfirst
      as (-> & (Hcwd & _) & pres & pp & entries & Hres & Hentries & Hpp & _ & Hstat & Hdirs).
    exists (OSError EEXIST path). split.
    + eapply (Hsecond pres pp entries); rewrite ?Hcwd; try done.
      apply Hdirs. by exists entries.
    + intros p [= <-]. repeat split.
      rewrite (exists_in_stat _ _ pp) by (by rewrite Hcwd). by rewrite Hstat.
  - rewrite write_kernel_spec_Some in Hfirst.
    destruct (shutil_copytree _ _ _) as [[u|e] w0] eqn:Hcopy.
    + destruct (write_file _ _ _) as [[u'|e2] w2] eqn:Hwrite; [done|].
      injection Hfirst as <- <-. apply write_file_fails in Hwrite as ->.
      apply shutil_copytree_inv in Hcopy
        as (pres & pp & entries & t1 & Hres & Hentries & Hpath & Hmk & ->).
      exists (OSError EEXIST path). split; [|done].
      cbn [cwd root set_root] in *.
      eapply (Hsecond pres pp entries); cbn [cwd root set_root]; try done.
      * apply fs_fill_keeps_dirs; [by eapply fs_makedirs_stat|].
        eapply fs_makedirs_keeps_dirs; [done|]. by exists entries.
      * eapply fs_fill_stat. by eapply fs_makedirs_stat.
    + injection Hfirst as <- <-. apply shutil_copytree_fails in Hcopy as Heq. subst w0.
      exists e. split; [|done]. by rewrite write_kernel_spec_Some, Hcopy.
Qed.

Lemma write_kernel_spec_twice_witness :
  ∃ w1,
    write_kernel_spec example_runtime (Some "/tmp/spec") example_world
    = (Return "/tmp/spec", w1)
    ∧ write_kernel_spec example_runtime (Some "/tmp/spec") w1
      = (Raise (OSError EEXIST "/tmp/spec"), w1).
Proof.
  pose (rw := write_kernel_spec example_runtime (Some "/tmp/spec") example_world).
  assert (rw.1 = Return "/tmp/spec") as Hr by (vm_compute; reflexivity).
  destruct (write_kernel_spec_twice example_runtime "/tmp/spec" example_world rw.2 rw.1)
    as (e & Hsecond & Hfirst).
  { apply surjective_pairing. }
  destruct (Hfirst _ Hr) as (_ & -> & _).
  exists rw.2. split; [rewrite <- Hr; apply surjective_pairing|exact Hsecond].
Defined.
(** ** The installer *)

Lemma install_unfold (rt : runtime) (ksm : option KernelSpecManager) (user : bool)
    (kernel_name prefix : option string) (w : world) :
  install rt ksm user kernel_name prefix w
  = match write_kernel_spec rt None w with
    | (Return path, w1) =>
        match install_kernel_spec
                (match ksm with
                 | None => new_KernelSpecManager rt
                 | Some ksm => ksm
                 end) path
                (match kernel_name with
                 | None => KERNEL_NAME rt
                 | Some name => name
                 end) user prefix w1 with
        | (Return dest, w2) =>
            match shutil_rmtree path w2 with
            | (Return _, w3) => (Return dest, w3)
            | (Raise e, w3) => (Raise e, w3)
            end
        | (Raise e, w2) => (Raise e, w2)
        end
    | (Raise e, w1) => (Raise e, w1)
    end.
Proof.
  unfold install, mbind, M_bind, mret, M_ret.
  destruct (write_kernel_spec rt None w) as [[path|e] w1]; [|done].
  destruct (install_kernel_spec _ _ _ _ _ _) as [[dest|e] w2]; [|done].
  by destruct (shutil_rmtree path w2) as [[u|e] w3].
Qed.

Lemma shutil_rmtree_ok (dir : string) (w : world) (p : list string) (c : string) :
  resolve (cwd w) dir = Some (p ++ [c]) → is_dir (p ++ [c]) (root w) →
  shutil_rmtree dir w = (Return (), set_root (fs_update_dir p (delete c) (root w)) w)
  ∧ fs_stat (p ++ [c]) (fs_update_dir p (delete c) (root w)) = inl ENOENT.
Proof.
  intros Hdir Hp. unfold shutil_rmtree. rewrite Hdir.
  pose proof (fs_rmtree_dir _ _ _ Hp) as Hrm. rewrite Hrm. split; [done|].
  by apply fs_rmtree_gone in Hrm as [_ ->].
Qed.

Lemma exists_in_add_call (c : install_call) (w : world) (s : string) :
  exists_in (add_call c w) s = exists_in w s.
Proof. reflexivity. Qed.

(** [install] with a stub manager, step by step: the world [w1] after
    staging, the call recorded in it, and the staged path taken out of its
    directory when the stub returns. *)
Lemma install_stub (rt : runtime) (canned : result string) (user : bool)
    (kernel_name : string) (prefix : option string) (w : world) (k : nat)
    (ptmp pres : list string) (m entries : gmap string node) :
  staging_ready rt w k ptmp pres m entries →
  let tmp := pjoin (tempdir rt) (temp_file w k) in
  let path := pjoin tmp (KERNEL_NAME rt) in
  let ptmpdir := ptmp ++ [temp_file w k] in
  ∃ w1,
    write_kernel_spec rt None w = (Return path, w1)
    ∧ cwd w1 = cwd w ∧ calls w1 = calls w
    ∧ resolve (cwd w) tmp = Some ptmpdir
    ∧ resolve (cwd w) path = Some (ptmpdir ++ [KERNEL_NAME rt])
    ∧ fs_stat ptmpdir (root w) = inl ENOENT
    ∧ is_dir (ptmpdir ++ [KERNEL_NAME rt]) (root w1)
    ∧ install rt (Some (stub_manager canned)) user (Some kernel_name) prefix w
      = (canned,
         match canned with
         | Return _ =>
             set_root (fs_update_dir ptmpdir (delete (KERNEL_NAME rt)) (root w1))
               (add_call (InstallCall path kernel_name user prefix) w1)
         | Raise _ => add_call (InstallCall path kernel_name user prefix) w1
         end).
Proof.
  intros Hready tmp path ptmpdir.
  destruct (write_kernel_spec_None_ok rt w k ptmp pres m entries Hready)
    as (w1 & Hrun & Hcwd & _ & _ & Hcalls & Htmp & Hpath & Hfresh & Hstat & _).
  fold tmp path ptmpdir in Hrun, Htmp, Hpath, Hfresh, Hstat.
  exists w1. repeat (split; [done|]). split; [by eexists|].
  rewrite install_unfold, Hrun. cbn [stub_manager install_kernel_spec].
  destruct canned as [dest|e]; [|done].
  destruct (shutil_rmtree_ok path
              (add_call (InstallCall path kernel_name user prefix) w1)
              ptmpdir (KERNEL_NAME rt)) as [-> _]; [by rewrite <- Hpath, <- Hcwd|by eexists|].
  done.
Qed.

(** C1: in a world that is ready for staging, with a 7-bit
    [sys.executable] and no [.] or [..] in the names of the temporary
    directory and of the resources, [install] stages the spec and hands the
    staged path, which is there by then, to [install_kernel_spec] of the
    manager, with [kernel_name], [user] and [prefix] as they were given.
    With any manager, the outcome is the error of the manager, in the world
    the manager left, or the value the manager returned, once [rmtree] of the
    staged path has run in the world the manager left.  With a stub manager,
    the stub has recorded the staged path and the three arguments, the
    outcome of [install] is the canned outcome of the stub, and after a
    return value the world is the one [rmtree] makes of the world of the
    stub, in which the staged path is gone; after an error it is the world
    of the stub, the staged path still there. *)
Theorem install_delegates (rt : runtime) (ksm : KernelSpecManager)
    (canned : result string) (user : bool)
    (kernel_name : string) (prefix : option string) (w : world) (k : nat)
    (ptmp pres : list string) (m entries : gmap string node) :
  staging_ready rt w k ptmp pres m entries →
  seven_bit (sys_executable rt) = true →
  dot_free (tempdir rt) = true → dot_free (RESOURCES rt) = true →
  ∃ path w1 w',
    write_kernel_spec rt None w = (Return path, w1)
    ∧ exists_in w1 path = true
    ∧ (∀ r w2,
         install_kernel_spec ksm path kernel_name user prefix w1 = (r, w2) →
         install rt (Some ksm) user (Some kernel_name) prefix w
         = match r with
           | Return dest =>
               match shutil_rmtree path w2 with
               | (Return _, w3) => (Return dest, w3)
               | (Raise e, w3) => (Raise e, w3)
               end
           | Raise e => (Raise e, w2)
           end)
    ∧ install rt (Some (stub_manager canned)) user (Some kernel_name) prefix w
      = (canned, w')
    ∧ calls w' = calls w ++ [InstallCall path kernel_name user prefix]
    ∧ match canned with
      | Return _ =>
          shutil_rmtree path (add_call (InstallCall path kernel_name user prefix) w1)
          = (Return (), w')
          ∧ exists_in w' path = false
      | Raise _ => w' = add_call (InstallCall path kernel_name user prefix) w1
      end.
Proof.
  intros Hready _ _ _.
  destruct (install_stub rt canned user kernel_name prefix w k ptmp pres m entries Hready)
    as (w1 & Hrun & Hcwd & Hcalls & _ & Hpath & _ & [mp Hstat] & Hinstall).
  rewrite <- Hcwd in Hpath.
  eexists _, w1, _. split; [exact Hrun|]. split.
  { by rewrite (exists_in_stat _ _ _ Hpath), Hstat. }
  split.
  { intros r w2 Hksm. rewrite install_unfold, Hrun, Hksm. by destruct r. }
  split; [exact Hinstall|]. split.
  - destruct canned; cbn [calls add_call set_root]; by rewrite Hcalls.
  - destruct canned as [dest|e]; [|done].
    destruct (shutil_rmtree_ok
                (pjoin (pjoin (tempdir rt) (temp_file w k)) (KERNEL_NAME rt))
                (add_call (InstallCall
                             (pjoin (pjoin (tempdir rt) (temp_file w k)) (KERNEL_NAME rt))
                             kernel_name user prefix) w1)
                _ _ Hpath) as [Hrm Hgone]; [by exists mp|].
    split; [exact Hrm|].
    unfold exists_in. cbn [cwd root add_call set_root]. rewrite Hpath.
    cbn [root add_call] in Hgone. by rewrite Hgone.
Qed.

Lemma install_delegates_witness :
  ∃ w1 w',
    write_kernel_spec example_runtime None example_world
    = (Return "/tmp/tmpb1_kernels/python2", w1)
    ∧ install example_runtime (Some (stub_manager (Return "/fake/dest"))) true
        (Some "testkernel") None example_world = (Return "/fake/dest", w')
    ∧ calls w' = [InstallCall "/tmp/tmpb1_kernels/python2" "testkernel" true None]
    ∧ shutil_rmtree "/tmp/tmpb1_kernels/python2"
        (add_call (InstallCall "/tmp/tmpb1_kernels/python2" "testkernel" true None) w1)
      = (Return (), w')
    ∧ exists_in w1 "/tmp/tmpb1_kernels/python2" = true
    ∧ exists_in w' "/tmp/tmpb1_kernels/python2" = false.
Proof.
  destruct (install_delegates example_runtime example_moving_manager
              (Return "/fake/dest") true "testkernel" None
              example_world 1 ["tmp"]
              ["usr"; "lib"; "python2.7"; "site-packages"; "ipykernel"; "resources"]
              (<["tmpaaa_kernels" := Dir ∅]> ∅) example_resources example_staging_ready
              eq_refl eq_refl eq_refl)
    as (path & w1 & w' & Hstage & Hthere & _ & Hinstall & Hcalls & Hrm & Hgone).
  assert (path = "/tmp/tmpb1_kernels/python2") as ->.
  { vm_compute in Hstage. congruence. }
  by exists w1, w'.
Defined.

(** What stays behind: [rmtree] takes the staged path away, not the
    directory [mkdtemp] made for it, which was not there before [install]
    and is there after it. *)
Lemma install_leaves_temporary_directory (rt : runtime) (dest : string) (user : bool)
    (kernel_name : string) (prefix : option string) (w : world) (k : nat)
    (ptmp pres : list string) (m entries : gmap string node) :
  staging_ready rt w k ptmp pres m entries →
  ∃ w',
    install rt (Some (stub_manager (Return dest))) user (Some kernel_name) prefix w
    = (Return dest, w')
    ∧ exists_in w (pjoin (tempdir rt) (temp_file w k)) = false
    ∧ exists_in w' (pjoin (tempdir rt) (temp_file w k)) = true.
Proof.
  intros Hready.
  destruct (install_stub rt (Return dest) user kernel_name prefix w k ptmp pres m entries
              Hready)
    as (w1 & _ & Hcwd & _ & Htmp & _ & Hfresh & [mp Hstat] & Hinstall).
  eexists. split; [exact Hinstall|]. split.
  { by rewrite (exists_in_stat _ _ _ Htmp), Hfresh. }
  rewrite <- Hcwd in Htmp. unfold exists_in. cbn [cwd root add_call set_root].
  rewrite Htmp.
  apply fs_stat_snoc_dir in Hstat as (mt & Htmpdir & _).
  by rewrite (fs_stat_update_dir_eq _ _ _ _ Htmpdir).
Qed.

(** Left out, the manager is [KernelSpecManager()] and the name is
    [KERNEL_NAME]. *)
Lemma install_defaults (rt : runtime) (user : bool) (prefix : option string) :
  install rt None user None prefix
  = install rt (Some (new_KernelSpecManager rt)) user (Some (KERNEL_NAME rt)) prefix.
Proof. reflexivity. Qed.

(** C6: an error of the staging step, or of [install_kernel_spec], is the
    error [install] raises, and the world [install] leaves is the world in
    which the error was raised: no cleanup runs.  After a staging error the
    manager was not called, no directory is missing, and the temporary
    directory, if [mkdtemp] made one, is still there; after an error of the
    manager the staged path is there as the manager left it. *)
Theorem install_leaks_on_error (rt : runtime) (ksm : option KernelSpecManager)
    (user : bool) (kernel_name prefix : option string) (w : world) :
  (∀ e w1,
      write_kernel_spec rt None w = (Raise e, w1) →
      install rt ksm user kernel_name prefix w = (Raise e, w1)
      ∧ calls w1 = calls w
      ∧ keeps_dirs (root w) (root w1)
      ∧ ∀ tmp wt, tempfile_mkdtemp rt "_kernels" w = (Return tmp, wt) →
          exists_in w tmp = false ∧ exists_in w1 tmp = true)
  ∧ (∀ path w1 e w2,
      write_kernel_spec rt None w = (Return path, w1) →
      install_kernel_spec
        (match ksm with
         | None => new_KernelSpecManager rt
         | Some ksm => ksm
         end) path
        (match kernel_name with
         | None => KERNEL_NAME rt
         | Some name => name
         end) user prefix w1 = (Raise e, w2) →
      install rt ksm user kernel_name prefix w = (Raise e, w2)
      ∧ exists_in w1 path = true
      ∧ (root w2 = root w1 → cwd w2 = cwd w1 → exists_in w2 path = true)).
Proof.
  split.
  - intros e w1 Hstage. split; [by rewrite install_unfold, Hstage|].
    rewrite write_kernel_spec_None in Hstage. unfold tempfile_mkdtemp in *.
    destruct (mkdtemp_loop _ _ _ _ w) as [[tmp|e0] wt] eqn:Htmp.
    + apply mkdtemp_loop_any in Htmp as (Hcwd & _ & Hcalls & Hdirs & Hnew).
      apply write_kernel_spec_Some_any in Hstage as [(Hcwd' & _ & _ & _ & Hcalls') Hdirs'].
      split; [congruence|]. split; [intros q Hq; by apply Hdirs', Hdirs|].
      intros tmp' wt' [= <- <-].
      destruct (Hnew tmp eq_refl) as (p & Hp & Hfresh & Hempty).
      split; [by rewrite (exists_in_stat _ _ _ Hp), Hfresh|].
      rewrite (exists_in_stat _ _ p) by congruence.
      destruct (Hdirs' p) as [m' ->]; [by eexists|done].
    + injection Hstage as <- <-.
      apply mkdtemp_loop_any in Htmp as (Hcwd & _ & Hcalls & Hdirs & _).
      by repeat split.
  - intros path w1 e w2 Hstage Hinstall.
    split; [by rewrite install_unfold, Hstage, Hinstall|].
    assert (exists_in w1 path = true) as Hexists.
    { rewrite write_kernel_spec_None in Hstage.
      destruct (tempfile_mkdtemp _ _ _) as [[tmp|e0] wt]; [|done].
      apply write_kernel_spec_Some_inv in Hstage
        as (-> & (Hcwd & _) & pres & pp & entries & _ & _ & Hpp & _ & Hstat & _).
      rewrite (exists_in_stat _ _ pp) by congruence. by rewrite Hstat. }
    split; [done|]. intros Hroot Hcwd. unfold exists_in in *. by rewrite Hroot, Hcwd.
Qed.

Lemma install_leaks_on_error_witness :
  (∃ w1,
      install example_broken_runtime None false None None example_world
      = (Raise (OSError ENOENT "/nowhere/resources"), w1)
      ∧ exists_in example_world "/tmp/tmpb1_kernels" = false
      ∧ exists_in w1 "/tmp/tmpb1_kernels" = true)
  ∧ (∃ w2,
      install example_runtime (Some (stub_manager (Raise (Exception "refused")))) false
        None None example_world = (Raise (Exception "refused"), w2)
      ∧ exists_in w2 "/tmp/tmpb1_kernels/python2" = true).
Proof.
  split.
  - pose (rw := write_kernel_spec example_broken_runtime None example_world).
    assert (rw.1 = Raise (OSError ENOENT "/nowhere/resources")) as Hr
      by (vm_compute; reflexivity).
    destruct (install_leaks_on_error example_broken_runtime None false None None
                example_world) as [Hstaging _].
    destruct (Hstaging (OSError ENOENT "/nowhere/resources") rw.2)
      as (Hinstall & _ & _ & Hleak).
    { rewrite <- Hr. apply surjective_pairing. }
    exists rw.2. split; [exact Hinstall|].
    pose (tw := tempfile_mkdtemp example_broken_runtime "_kernels" example_world).
    assert (tw.1 = Return "/tmp/tmpb1_kernels") as Ht by (vm_compute; reflexivity).
    apply (Hleak "/tmp/tmpb1_kernels" tw.2).
    rewrite <- Ht. apply surjective_pairing.
  - pose (rw := write_kernel_spec example_runtime None example_world).
    assert (rw.1 = Return "/tmp/tmpb1_kernels/python2") as Hr by (vm_compute; reflexivity).
    destruct (install_leaks_on_error example_runtime
                (Some (stub_manager (Raise (Exception "refused")))) false None None
                example_world) as [_ Hdelegation].
    destruct (Hdelegation "/tmp/tmpb1_kernels/python2" rw.2 (Exception "refused")
                (add_call (InstallCall "/tmp/tmpb1_kernels/python2" "python2" false None)
                   rw.2))
      as (Hinstall & Hthere & _).
    { rewrite <- Hr. apply surjective_pairing. }
    { reflexivity. }
    eexists. split; [exact Hinstall|]. rewrite exists_in_add_call. exact Hthere.
Defined.
(** ** The command-line entry point *)

Lemma defaults_parser (rt : runtime) :
  defaults (parser rt)
  = <["prefix" := NsNone]> (<["name" := NsStr (KERNEL_NAME rt)]>
      (<["user" := NsBool false]> ∅)).
Proof. reflexivity. Qed.

Lemma namespace_of_defaults (rt : runtime) :
  namespace_of false (KERNEL_NAME rt) None (defaults (parser rt)).
Proof.
  rewrite defaults_parser. unfold namespace_of. repeat split; done.
Qed.

Lemma matching_spec (P : string → bool) (p : ArgumentParser) (a : argument) (o : string) :
  (a, o) ∈ matching P p → a ∈ arguments p ∧ o ∈ option_strings a ∧ P o = true.
Proof.
  unfold matching. intros (a' & Ha & Hin)%list_elem_of_bind.
  apply list_elem_of_bind in Ha as (o' & [= <- <-]%list_elem_of_singleton & Ho).
  apply list_elem_of_filter in Ho as [HP Ho]. repeat split; try done.
  by destruct (P o).
Qed.

Lemma parse_optional_spec (p : ArgumentParser) (arg : string) (a : argument)
    (o : string) (e : option string) :
  parse_optional p arg = Optional a o e → a ∈ arguments p ∧ o ∈ option_strings a.
Proof.
  unfold parse_optional.
  assert (∀ P, ∀ l, matching P p = (a, o) :: l → a ∈ arguments p ∧ o ∈ option_strings a)
    as Hhead.
  { intros P l Hl. destruct (matching_spec P p a o) as (? & ? & _); [|done].
    rewrite Hl. apply list_elem_of_here. }
  destruct arg as [|c1 [|c2 rest2]]; [done..|].
  destruct (negb _); [done|].
  destruct (matching (String.eqb _) p) as [|[a1 o1] l1] eqn:H1.
  2:{ intros [= <- <- <-]. by eapply Hhead. }
  destruct (split_eq _) as [opt explicit].
  destruct (match explicit with Some _ => _ | None => _ end) as [|[a2 o2] l2] eqn:H2.
  2:{ intros [= <- <- <-]. destruct explicit; [by eapply Hhead|done]. }
  destruct (bool_decide (c2 = "-"%char)).
  - destruct (matching (String.prefix opt) p) as [|[a3 o3] [|??]] eqn:H3;
      cbn [fmap list_fmap app]; [done| |done].
    intros [= <- <- <-]. by eapply Hhead.
  - destruct (matching (String.eqb (String "-" (String c2 ""))) p)
      as [|[a3 o3] l3] eqn:H3; cbn [fmap list_fmap app].
    + destruct (matching (String.prefix _) p) as [|[a4 o4] [|??]] eqn:H4;
        cbn [fmap list_fmap app]; [done| |done].
      intros [= <- <- <-]. by eapply Hhead.
    + destruct l3 as [|??]; cbn [fmap list_fmap app]; [|done].
      destruct (matching (String.prefix _) p) as [|??] eqn:H4;
        cbn [fmap list_fmap app]; [|done].
      intros [= <- <- <-]. by eapply Hhead.
Qed.

Lemma arguments_parser (rt : runtime) (a : argument) :
  a ∈ arguments (parser rt) →
  a = help_argument ∨ a = user_argument ∨ a = name_argument rt ∨ a = prefix_argument.
Proof.
  change (arguments (parser rt))
    with [help_argument; user_argument; name_argument rt; prefix_argument].
  rewrite !elem_of_cons, elem_of_nil. tauto.
Qed.

Lemma namespace_of_insert_user (user user' : bool) (name : string) (prefix : option string)
    (ns : gmap string nsval) :
  namespace_of user name prefix ns →
  namespace_of user' name prefix (<["user" := NsBool user']> ns).
Proof.
  intros (Hu & Hn & Hp & Hdom). unfold namespace_of.
  rewrite lookup_insert_eq, !lookup_insert_ne by done.
  repeat split; try done. rewrite dom_insert_L, Hdom. set_solver.
Qed.

Lemma namespace_of_insert_name (user : bool) (name name' : string) (prefix : option string)
    (ns : gmap string nsval) :
  namespace_of user name prefix ns →
  namespace_of user name' prefix (<["name" := NsStr name']> ns).
Proof.
  intros (Hu & Hn & Hp & Hdom). unfold namespace_of.
  rewrite lookup_insert_eq, !lookup_insert_ne by done.
  repeat split; try done. rewrite dom_insert_L, Hdom. set_solver.
Qed.

Lemma namespace_of_insert_prefix (user : bool) (name prefix' : string)
    (prefix : option string) (ns : gmap string nsval) :
  namespace_of user name prefix ns →
  namespace_of user name (Some prefix') (<["prefix" := NsStr prefix']> ns).
Proof.
  intros (Hu & Hn & Hp & Hdom). unfold namespace_of.
  rewrite lookup_insert_eq, !lookup_insert_ne by done.
  repeat split; try done. rewrite dom_insert_L, Hdom. set_solver.
Qed.

(** An action that returns has set one of the three attributes. *)
Lemma take_action_spec (rt : runtime) (help_text : string) (a : argument)
    (v : option string) (ns ns' : gmap string nsval) (w w' : world) :
  a ∈ arguments (parser rt) → is_namespace ns →
  take_action help_text a v ns w = (Return ns', w') →
  w' = w ∧ is_namespace ns' ∧ dest a ∈ ["user"; "name"; "prefix"]
  ∧ (arg_action a = store → dest a ∈ ["name"; "prefix"]).
Proof.
  intros Ha (user & name & prefix & Hns).
  apply arguments_parser in Ha as [-> | [-> | [-> | -> ]]]; unfold take_action; cbn.
  - done.
  - intros [= <- <-]. split; [done|]. split; [|split; [set_solver|done]].
    eexists _, _, _. by eapply namespace_of_insert_user.
  - destruct v as [v|]; [|done]. intros [= <- <-]. split; [done|].
    split; [|split; set_solver].
    eexists _, _, _. by eapply namespace_of_insert_name.
  - destruct v as [v|]; [|done]. intros [= <- <-]. split; [done|].
    split; [|split; set_solver].
    eexists _, _, _. by eapply namespace_of_insert_prefix.
Qed.

Lemma consume_cons (p : ArgumentParser) (help_text : string) (arg : string)
    (rest : list string) (literal extras : bool) (ns : gmap string nsval) :
  consume p help_text (arg :: rest) literal extras ns
  = if literal || bool_decide (arg = "--") then consume p help_text rest true true ns
    else
      match parse_optional p arg with
      | Extra => consume p help_text rest false true ns
      | Ambiguous => raise (SystemExit 2)
      | Optional a o explicit =>
          match arg_action a, explicit with
          | store, Some v =>
              ns' ← take_action help_text a (Some v) ns;
              consume p help_text rest false extras ns'
          | store, None =>
              match rest with
              | v :: rest' =>
                  if takes_value v then
                    ns' ← take_action help_text a (Some v) ns;
                    consume p help_text rest' false extras ns'
                  else raise (SystemExit 2)
              | [] => raise (SystemExit 2)
              end
          | _, None =>
              ns' ← take_action help_text a None ns;
              consume p help_text rest false extras ns'
          | _, Some e =>
              match (if is_short o then parse_group p e else None) with
              | Some acts =>
                  ns' ← take_actions help_text ((a, None) :: acts) ns;
                  consume p help_text rest false extras ns'
              | None => raise (SystemExit 2)
              end
          end
      end.
Proof. reflexivity. Qed.

Lemma take_action_help (help_text : string) (v : option string)
    (ns : gmap string nsval) (w : world) :
  take_action help_text help_argument v ns w
  = (Raise (SystemExit 0), add_stdout help_text w).
Proof. reflexivity. Qed.

(** A parse that returns has read the three flags and their values, and
    nothing else. *)
Lemma consume_spec (rt : runtime) (help_text : string) (n : nat) :
  ∀ (args : list string) (literal extras : bool) (ns ns' : gmap string nsval)
    (w w' : world),
    length args < n → is_namespace ns →
    consume (parser rt) help_text args literal extras ns w = (Return ns', w') →
    w' = w ∧ is_namespace ns' ∧ accepted rt args ∧ extras = false.
Proof.
  induction n as [|n IH]; intros args literal extras ns ns' w w' Hlen Hns; [lia|].
  destruct args as [|arg rest].
  { cbn [consume]. destruct extras; [done|]. intros [= <- <-].
    repeat split; try done. constructor. }
  cbn [length] in Hlen. rewrite consume_cons.
  destruct (literal || bool_decide (arg = "--")).
  { intros H. apply IH in H as (_ & _ & _ & [=]); [lia|done]. }
  destruct (parse_optional (parser rt) arg) as [| |a o explicit] eqn:Hparse.
  { intros H. apply IH in H as (_ & _ & _ & [=]); [lia|done]. }
  { done. }
  destruct (parse_optional_spec _ _ _ _ _ Hparse) as [Ha Ho].
  destruct (arg_action a) eqn:Hact; destruct explicit as [e|].
  - rewrite bind_M.
    destruct (take_action help_text a (Some e) ns w) as [[ns1|e1] w1] eqn:Htake; [|done].
    apply (take_action_spec rt) in Htake as (-> & Hns1 & Hdest & _); [|done..].
    intros H. apply IH in H as (-> & Hns' & Hacc & ->); [|lia|done].
    repeat split; try done. by eapply accepted_flag.
  - destruct rest as [|v rest']; [done|]. destruct (takes_value v); [|done].
    rewrite bind_M.
    destruct (take_action help_text a (Some v) ns w) as [[ns1|e1] w1] eqn:Htake; [|done].
    apply (take_action_spec rt) in Htake as (-> & Hns1 & _ & Hdest); [|done..].
    intros H. apply IH in H as (-> & Hns' & Hacc & ->); [|cbn [length] in Hlen; lia|done].
    repeat split; try done. eapply accepted_value; [done|by apply Hdest|done].
  - apply arguments_parser in Ha as [-> | [-> | [-> | -> ]]]; try done.
    apply list_elem_of_singleton in Ho as ->. done.
  - rewrite bind_M.
    destruct (take_action help_text a None ns w) as [[ns1|e1] w1] eqn:Htake; [|done].
    apply (take_action_spec rt) in Htake as (-> & Hns1 & Hdest & _); [|done..].
    intros H. apply IH in H as (-> & Hns' & Hacc & ->); [|lia|done].
    repeat split; try done. by eapply accepted_flag.
  - apply arguments_parser in Ha as [-> | [-> | [-> | -> ]]]; try done.
    destruct (if is_short o then _ else _) as [acts|]; [|done].
    rewrite bind_M. cbn [take_actions]. by rewrite bind_M, take_action_help.
  - apply arguments_parser in Ha as [-> | [-> | [-> | -> ]]]; try done;
      by rewrite bind_M, take_action_help.
Qed.

Lemma parse_optional_user (rt : runtime) :
  parse_optional (parser rt) "--user" = Optional user_argument "--user" None.
Proof. reflexivity. Qed.

Lemma parse_optional_name (rt : runtime) :
  parse_optional (parser rt) "--name" = Optional (name_argument rt) "--name" None.
Proof. reflexivity. Qed.

Lemma parse_optional_prefix (rt : runtime) :
  parse_optional (parser rt) "--prefix" = Optional prefix_argument "--prefix" None.
Proof. reflexivity. Qed.

(** The three flags, spelled in full, set their attributes. *)
Lemma consume_uses (rt : runtime) (help_text : string) (uses : list flag_use)
    (ns : gmap string nsval) (w : world) :
  Forall (λ u, use_ok u = true) uses →
  consume (parser rt) help_text (uses ≫= render) false false ns w
  = (Return (foldl apply_use ns uses), w).
Proof.
  revert ns. induction uses as [|u uses IH]; intros ns Hok; [done|].
  apply Forall_cons in Hok as [Hu Hok]. rewrite bind_cons.
  destruct u as [|v|v]; cbn [render app]; rewrite consume_cons.
  - change (false || bool_decide ("--user" = "--")) with false. cbv iota.
    rewrite parse_optional_user. cbn [arg_action user_argument].
    rewrite bind_M. cbn [take_action arg_action user_argument mret M_ret dest].
    by rewrite IH.
  - change (false || bool_decide ("--name" = "--")) with false. cbv iota.
    rewrite parse_optional_name. cbn [arg_action name_argument].
    cbn [use_ok] in Hu. rewrite Hu, bind_M.
    cbn [take_action arg_action name_argument mret M_ret dest].
    by rewrite IH.
  - change (false || bool_decide ("--prefix" = "--")) with false. cbv iota.
    rewrite parse_optional_prefix. cbn [arg_action prefix_argument].
    cbn [use_ok] in Hu. rewrite Hu, bind_M.
    cbn [take_action arg_action prefix_argument mret M_ret dest].
    by rewrite IH.
Qed.
Lemma main_unfold (rt : runtime) (argv : list string) (w : world) :
  main rt argv w
  = match parse_args (parser rt) (format_help rt (parser rt)) argv w with
    | (Return opts, w1) =>
        match install rt None (as_bool (ns_get opts "user"))
                (as_option (ns_get opts "name")) (as_option (ns_get opts "prefix")) w1 with
        | (Return dest, w2) =>
            (Return (),
             add_stdout ("Installed kernelspec " +:+ str (ns_get opts "name")
                         +:+ " in " +:+ dest) w2)
        | (Raise e, w2) => (Raise e, w2)
        end
    | (Raise e, w1) => (Raise e, w1)
    end.
Proof.
  unfold main, mbind, M_bind.
  destruct (parse_args _ _ _ _) as [[opts|e] w1]; [|done].
  by destruct (install _ _ _ _ _ _) as [[dest|e] w2].
Qed.

(** C7: the parser of the entry point has the flags [--user] (default
    [False]), [--name] (default [KERNEL_NAME]) and [--prefix] (default
    [None]): any sequence of them sets their attributes, in order.  A parse
    that returns has read these flags and their values only, and gives a
    namespace with exactly the attributes [user], [name] and [prefix]; [main]
    then calls [install] with them and, when [install] returns [dest],
    prints [Installed kernelspec <name> in <dest>]. *)
Theorem main_spec (rt : runtime) :
  (∀ uses w, Forall (λ u, use_ok u = true) uses →
     parse_args (parser rt) (format_help rt (parser rt)) (uses ≫= render) w
     = (Return (foldl apply_use (defaults (parser rt)) uses), w))
  ∧ namespace_of false (KERNEL_NAME rt) None (defaults (parser rt))
  ∧ (∀ argv opts w w',
       parse_args (parser rt) (format_help rt (parser rt)) argv w = (Return opts, w') →
       w' = w ∧ accepted rt argv
       ∧ ∃ user name prefix,
           namespace_of user name prefix opts
           ∧ main rt argv w
             = match install rt None user (Some name) prefix w with
               | (Return dest, w2) =>
                   (Return (),
                    add_stdout ("Installed kernelspec " +:+ name +:+ " in " +:+ dest) w2)
               | (Raise e, w2) => (Raise e, w2)
               end).
Proof.
  split; [|split].
  - intros uses w Hok. by apply consume_uses.
  - apply namespace_of_defaults.
  - intros argv opts w w' Hparse. pose proof Hparse as Hparse'.
    apply (consume_spec rt _ (S (length argv))) in Hparse'
      as (-> & (user & name & prefix & Hns) & Hacc & _);
      [|lia|eexists _, _, _; apply namespace_of_defaults].
    split; [done|]. split; [done|]. exists user, name, prefix. split; [done|].
    rewrite main_unfold, Hparse. destruct Hns as (Hu & Hn & Hp & _).
    unfold ns_get. rewrite Hu, Hn, Hp. cbn [default as_bool as_option str].
    by destruct prefix.
Qed.

Lemma main_spec_witness :
  ∃ w',
    main example_runtime ["--user"; "--name"; "testkernel"] example_world = (Return (), w')
    ∧ stdout w'
      = ["Installed kernelspec testkernel in /usr/share/jupyter/kernels/python2"].
Proof.
  destruct (main_spec example_runtime) as (Huses & _ & Hmain).
  pose proof (Huses [UseUser; UseName "testkernel"] example_world) as Hparse.
  destruct (Hmain ["--user"; "--name"; "testkernel"]
              (foldl apply_use (defaults (parser example_runtime))
                 [UseUser; UseName "testkernel"]) example_world example_world)
    as (_ & _ & user & name & prefix & (Hu & Hn & Hp & _) & Hrun).
  { apply Hparse. repeat constructor. }
  vm_compute in Hu. injection Hu as <-.
  vm_compute in Hn. injection Hn as <-.
  destruct prefix as [prefix|]; [vm_compute in Hp; discriminate Hp|].
  eexists. rewrite Hrun. split; vm_compute; reflexivity.
Defined.

(** * Further properties *)

(** ** Where the resources are *)

Lemma upto_last_slash_slash_free (f : string) :
  slash_free f = true → upto_last_slash f = "".
Proof.
  induction f as [|c f IH]; [done|]. simpl. intros [Hc Hf]%andb_prop.
  rewrite IH by done. by destruct (is_slash c).
Qed.

Lemma upto_last_slash_app (d f : string) :
  slash_free f = true → upto_last_slash (d +:+ String "/" f) = d +:+ "/".
Proof.
  intros Hf. induction d as [|c d IH].
  - change ("" +:+ String "/" f) with (String "/" f). simpl.
    by rewrite upto_last_slash_slash_free.
  - rewrite !string_app_cons. simpl. rewrite IH. by destruct d.
Qed.

Lemma rstrip_slash_app_slash (d : string) : rstrip_slash (d +:+ "/") = rstrip_slash d.
Proof.
  induction d as [|c d IH]; [done|]. rewrite string_app_cons. simpl. by rewrite IH.
Qed.

Lemma rstrip_slash_id (d : string) : ends_with_slash d = false → rstrip_slash d = d.
Proof.
  induction d as [|c d IH]; [done|]. destruct d as [|c' d'].
  - simpl. by intros ->.
  - intros H. change (rstrip_slash (String c (String c' d')))
      with (match rstrip_slash (String c' d') with
            | "" => if is_slash c then "" else String c ""
            | r => String c r
            end).
    by rewrite IH.
Qed.

Lemma dirname_join (d f : string) :
  slash_free f = true → ends_with_slash d = false →
  dirname (d +:+ String "/" f) = match d with "" => "/" | _ => d end.
Proof.
  intros Hf Hd. unfold dirname.
  rewrite (upto_last_slash_app _ _ Hf), rstrip_slash_app_slash, (rstrip_slash_id _ Hd).
  by destruct d.
Qed.

(** X1: the resources are looked up beside the module file.  When
    [__file__] is [d/f], with [f] a name without a slash and [d] not ending
    in one, [RESOURCES] is [d/resources], and from any working directory in
    which [d] resolves, the module file and the resources are two entries of
    one directory.  When [__file__] has no slash at all, [RESOURCES] is the
    relative name [resources]: it resolves in whatever the working directory
    is when it is used. *)
Theorem RESOURCES_location (rt : runtime) :
  (∀ d f,
     module_file rt = d +:+ "/" +:+ f → slash_free f = true → ends_with_slash d = false →
     RESOURCES rt = d +:+ "/resources"
     ∧ ∀ cwd pd, resolve cwd d = Some pd → simple_name f = true →
         resolve cwd (module_file rt) = Some (pd ++ [f])
         ∧ resolve cwd (RESOURCES rt) = Some (pd ++ ["resources"]))
  ∧ (slash_free (module_file rt) = true →
     RESOURCES rt = "resources"
     ∧ ∀ cwd, resolve cwd (RESOURCES rt) = Some (cwd ++ ["resources"])).
Proof.
  split.
  - intros d f Hfile Hf Hd. unfold RESOURCES. rewrite Hfile.
    change ("/" +:+ f) with (String "/" f). rewrite (dirname_join _ _ Hf Hd).
    assert (∀ b, slash_free b = true → d ≠ "" → pjoin d b = d +:+ "/" +:+ b) as Hjoin.
    { intros b Hb Hne. unfold pjoin.
      by rewrite (slash_free_not_starts _ Hb), bool_decide_eq_false_2, Hd. }
    split.
    + destruct d as [|c d]; [done|]. by apply Hjoin.
    + intros cwd pd Hpd Hsimple.
      assert (d ≠ "") as Hne by (by intros ->).
      change (String "/" f) with ("/" +:+ f).
      rewrite <- (Hjoin f Hf Hne).
      split; [by apply resolve_pjoin|].
      destruct d as [|c d]; [done|]. by apply resolve_pjoin.
  - intros Hfree. unfold RESOURCES, dirname.
    rewrite (upto_last_slash_slash_free _ Hfree). split; [done|].
    intros cwd. unfold resolve. simpl. unfold walk. simpl. done.
Qed.

Lemma RESOURCES_location_witness :
  RESOURCES example_runtime = "/usr/lib/python2.7/site-packages/ipykernel/resources"
  ∧ resolve ["home"] (RESOURCES example_runtime)
    = Some ["usr"; "lib"; "python2.7"; "site-packages"; "ipykernel"; "resources"].
Proof.
  destruct (RESOURCES_location example_runtime) as [Hbeside _].
  destruct (Hbeside "/usr/lib/python2.7/site-packages/ipykernel" "kernelspec.py")
    as [Hres Hresolve]; [reflexivity..|].
  split; [exact Hres|].
  apply (Hresolve ["home"] ["usr"; "lib"; "python2.7"; "site-packages"; "ipykernel"]);
    reflexivity.
Defined.

(** ** What the name and the text of the spec depend on *)

(** X2: [KERNEL_NAME] tells the major versions of the interpreter apart,
    and nothing else: two interpreters have the same kernel name exactly when
    they have the same major version. *)
Theorem KERNEL_NAME_by_major_version (rt1 rt2 : runtime) :
  KERNEL_NAME rt1 = KERNEL_NAME rt2 ↔ sys_version_major rt1 = sys_version_major rt2.
Proof.
  unfold KERNEL_NAME. split; [|by intros ->].
  intros H. by apply (inj (String.append "python")), (inj pretty) in H.
Qed.

Lemma plain_app (s t : string) : plain (s +:+ t) = plain s && plain t.
Proof.
  induction s as [|c s IH]; [done|].
  rewrite string_app_cons. simpl. by rewrite IH, andb_assoc.
Qed.

Lemma plain_escape_char (c : ascii) : plain (escape_char c) = true.
Proof. destruct c as [[] [] [] [] [] [] [] []]; vm_compute; reflexivity. Qed.

Lemma plain_escape (s : string) : plain (escape s) = true.
Proof.
  induction s as [|c s IH]; [done|].
  cbn [escape]. by rewrite plain_app, plain_escape_char, IH.
Qed.

Lemma plain_encode_basestring_ascii (s : string) : plain (encode_basestring_ascii s) = true.
Proof.
  unfold encode_basestring_ascii. cbn [plain]. by rewrite plain_app, plain_escape.
Qed.

Lemma plain_spaces (n : nat) : plain (spaces n) = true.
Proof. induction n as [|n IH]; [done|]. cbn [spaces plain]. by rewrite IH. Qed.

Lemma plain_newline_indent (indent level : nat) :
  plain (newline_indent indent level) = true.
Proof. unfold newline_indent. cbn [plain]. by rewrite plain_spaces. Qed.

Lemma plain_join_items (sep : string) (chunks : list string) :
  plain sep = true → Forall (λ c, plain c = true) chunks →
  plain (join_items sep chunks) = true.
Proof.
  intros Hsep. induction 1 as [|c chunks Hc Hchunks IH]; [done|].
  cbn [join_items]. destruct chunks as [|c' chunks']; [done|].
  by rewrite !plain_app, Hc, Hsep, IH.
Qed.

Lemma plain_separator (indent level : nat) :
  plain (", " +:+ newline_indent indent level) = true.
Proof. by rewrite plain_app, plain_newline_indent. Qed.

Lemma plain_iterencode_list (indent level : nat) (lst : list string) :
  plain (iterencode_list indent level lst) = true.
Proof.
  unfold iterencode_list. destruct lst as [|x lst]; [done|].
  rewrite !plain_app, !plain_newline_indent.
  rewrite plain_join_items; [done|apply plain_separator|].
  apply Forall_fmap, Forall_forall. intros s _. apply plain_encode_basestring_ascii.
Qed.

Lemma plain_iterencode_value (indent level : nat) (v : pyobj) :
  plain (iterencode_value indent level v) = true.
Proof.
  destruct v; [apply plain_encode_basestring_ascii|apply plain_iterencode_list].
Qed.

Lemma plain_json_dump (obj : gmap string pyobj) (indent : nat) :
  plain (json_dump obj indent) = true.
Proof.
  unfold json_dump, iterencode_dict. destruct (map_to_list obj) as [|kv items]; [done|].
  rewrite !plain_app, !plain_newline_indent.
  rewrite plain_join_items; [done|apply plain_separator|].
  apply Forall_fmap, Forall_forall. intros [k v] _. cbn [fst snd compose].
  by rewrite !plain_app, plain_encode_basestring_ascii, plain_iterencode_value.
Qed.

(** X3: with a 7-bit [sys.executable], the text of [kernel.json] is made of
    newlines and of the characters from space to tilde: a control character
    or a DEL in the path of the interpreter is written as an escape. *)
Theorem kernel_json_plain (rt : runtime) :
  seven_bit (sys_executable rt) = true → plain (kernel_json rt) = true.
Proof. intros _. unfold kernel_json. exact (plain_json_dump (get_kernel_dict rt) 1). Qed.

Lemma kernel_json_plain_witness : plain (kernel_json example_runtime) = true.
Proof. apply (kernel_json_plain example_runtime). reflexivity. Defined.



(** ** Updates of a directory, composed *)

Lemma fs_update_dir_ext (p : list string) f g (t : node) :
  (∀ m, fs_stat p t = inr (Dir m) → f m = g m) →
  fs_update_dir p f t = fs_update_dir p g t.
Proof.
  revert t. induction p as [|c p IH]; intros [s|m0] Hfg; try done.
  - simpl. by rewrite (Hfg m0).
  - simpl. f_equal. apply alter_ext. intros n Hn. apply IH.
    intros m Hm. apply Hfg. simpl. by rewrite Hn.
Qed.

Lemma fs_update_dir_compose (p : list string) f g (t : node) :
  fs_update_dir p f (fs_update_dir p g t) = fs_update_dir p (f ∘ g) t.
Proof.
  revert t. induction p as [|c p IH]; intros [s|m]; try done.
  simpl. rewrite alter_alter_eq. f_equal. apply alter_ext. intros n _. apply IH.
Qed.

Lemma fs_update_dir_app (p : list string) (c : string) (r : list string) f (t : node) :
  fs_update_dir (p ++ c :: r) f t = fs_update_dir p (alter (fs_update_dir r f) c) t.
Proof.
  revert t. induction p as [|a p IH]; intros [s|m]; try done.
  simpl. f_equal. apply alter_ext. intros n _. apply IH.
Qed.

Lemma fs_stat_nest (q : list string) (n : node) : fs_stat q (nest q n) = inr n.
Proof. induction q as [|c q IH]; [done|]. simpl. by rewrite lookup_singleton_eq. Qed.

Lemma fs_update_dir_nest (q : list string) f (x : gmap string node) :
  fs_update_dir q f (nest q (Dir x)) = nest q (Dir (f x)).
Proof.
  induction q as [|c q IH]; [done|]. simpl. by rewrite alter_singleton_eq, IH.
Qed.

Lemma nest_snoc (q : list string) (c : string) (n : node) :
  nest (q ++ [c]) n = nest q (Dir {[c := n]}).
Proof. induction q as [|a q IH]; [done|]. simpl. by rewrite IH. Qed.

Lemma nest_app (a b : list string) (n : node) : nest (a ++ b) n = nest a (nest b n).
Proof. induction a as [|c a IH]; [done|]. simpl. by rewrite IH. Qed.

Lemma nest_is_dir (q : list string) (x : gmap string node) : ∃ m, nest q (Dir x) = Dir m.
Proof. destruct q as [|c q]; by eexists. Qed.

(** An update below an entry that an earlier update put there. *)
Lemma fs_update_dir_under (p : list string) (b : string) (q : list string) f
    (x : gmap string node) (t : node) :
  fs_update_dir (p ++ b :: q) f (fs_update_dir p (insert b (nest q (Dir x))) t)
  = fs_update_dir p (insert b (nest q (Dir (f x)))) t.
Proof.
  rewrite fs_update_dir_app, fs_update_dir_compose.
  apply fs_update_dir_ext. intros m _. unfold compose.
  by rewrite alter_insert_eq, fs_update_dir_nest.
Qed.

(** An update that leaves every name but [name] alone is not seen from a
    path that does not go through [name]. *)
Lemma fs_update_dir_frame_at (p : list string) (name : string) f (t : node)
    (q : list string) :
  (∀ m c, c ≠ name → f m !! c = m !! c) →
  ¬ q `prefix_of` p → ¬ (p ++ [name]) `prefix_of` q →
  fs_stat q (fs_update_dir p f t) = fs_stat q t.
Proof.
  intros Hf. revert q t. induction p as [|c p IH]; intros q t Hqp Hpq.
  - destruct q as [|b q]; [by destruct Hqp|].
    destruct t as [|m]; [done|]. simpl.
    rewrite Hf; [done|].
    intros ->. apply Hpq. apply prefix_cons, prefix_nil.
  - destruct q as [|b q]; [destruct Hqp; apply prefix_nil|].
    destruct t as [|m]; [done|]. simpl.
    destruct (decide (c = b)) as [->|Hne].
    + rewrite lookup_alter_eq. destruct (m !! b) as [n|]; [|done]. simpl.
      apply IH.
      * intros H. apply Hqp. by apply prefix_cons.
      * intros H. apply Hpq. by apply prefix_cons.
    + by rewrite lookup_alter_ne.
Qed.

(** Taking a name out of a directory keeps every directory that is not
    under that name. *)
Lemma fs_update_dir_delete_keeps (p : list string) (name : string) (t : node)
    (q : list string) :
  is_dir q t → ¬ (p ++ [name]) `prefix_of` q →
  is_dir q (fs_update_dir p (delete name) t).
Proof.
  unfold is_dir. revert q t. induction p as [|c p IH]; intros q t [mq Hq] Hpq.
  - destruct t as [|m]; [by exists mq|]. simpl.
    destruct q as [|b q]; [by eexists|]. simpl in *.
    rewrite lookup_delete_ne; [by exists mq|].
    intros ->. apply Hpq. apply prefix_cons, prefix_nil.
  - destruct t as [|m]; [by exists mq|]. simpl.
    destruct q as [|b q]; [by eexists|]. simpl in *.
    destruct (decide (c = b)) as [->|Hne].
    + rewrite lookup_alter_eq. destruct (m !! b) as [n|] eqn:Hb; [|done]. simpl.
      apply IH; [by exists mq|]. intros H. apply Hpq. by apply prefix_cons.
    + rewrite lookup_alter_ne by done. by exists mq.
Qed.

(** *** makedirs, the ancestors included *)

Lemma fs_makedirs_snoc (p : list string) (c : string) (t : node) :
  p ≠ [] →
  fs_makedirs (p ++ [c]) t
  = match fs_stat p t with
    | inl _ =>
        match fs_makedirs p t with
        | inr t' => fs_mkdir (p ++ [c]) t'
        | inl EEXIST => fs_mkdir (p ++ [c]) t
        | inl e => inl e
        end
    | inr _ => fs_mkdir (p ++ [c]) t
    end.
Proof.
  intros Hp. unfold fs_makedirs. rewrite reverse_snoc. cbn [fs_makedirs_rev].
  assert (reverse (c :: reverse p) = p ++ [c]) as ->
    by (by rewrite reverse_cons, reverse_involutive).
  destruct (reverse p) as [|s l] eqn:Hrev.
  { destruct Hp. by rewrite <- (reverse_involutive p), Hrev. }
  by rewrite <- Hrev, reverse_involutive.
Qed.

(** [makedirs] below a directory that has no entry [b]: the whole chain is
    made. *)
Lemma fs_makedirs_missing (p : list string) (b : string) (q : list string) (t : node) m :
  fs_stat p t = inr (Dir m) → m !! b = None →
  fs_makedirs (p ++ b :: q) t = inr (fs_update_dir p (insert b (nest q (Dir ∅))) t).
Proof.
  intros Hp Hb. induction q as [|c q IH] using rev_ind.
  - by rewrite (fs_makedirs_parent _ _ _ _ Hp), fs_mkdir_snoc, Hp, Hb.
  - assert (p ++ b :: q ++ [c] = (p ++ b :: q) ++ [c]) as ->
      by (by rewrite <- app_assoc).
    rewrite fs_makedirs_snoc by (by destruct p).
    assert (fs_stat (p ++ b :: q) t = inl ENOENT) as ->.
    { rewrite fs_stat_app, Hp. simpl. by rewrite Hb. }
    rewrite IH, fs_mkdir_snoc.
    rewrite (fs_stat_update_dir _ _ _ _ _ Hp). simpl. rewrite lookup_insert_eq, fs_stat_nest.
    rewrite lookup_empty, fs_update_dir_under, nest_snoc. by rewrite insert_empty.
Qed.

(** ** The spec writer, to the letter *)

(** A call with an explicit path whose first missing name is [b], in the
    directory [p]: what it returns and the world it leaves. *)
Lemma write_kernel_spec_Some_exact (rt : runtime) (path : string) (w : world)
    (pres p : list string) (b : string) (q : list string)
    (entries m : gmap string node) :
  resolve (cwd w) (RESOURCES rt) = Some pres →
  fs_stat pres (root w) = inr (Dir entries) →
  resolve (cwd w) path = Some (p ++ b :: q) →
  fs_stat p (root w) = inr (Dir m) → m !! b = None →
  write_kernel_spec rt (Some path) w
  = match entries !! "kernel.json" with
    | Some (Dir _) =>
        (Raise (IOError EISDIR (pjoin path "kernel.json")),
         set_root (fs_update_dir p (insert b (nest q (Dir entries))) (root w)) w)
    | _ =>
        (Return path,
         set_root
           (fs_update_dir p
              (insert b (nest q (Dir (<["kernel.json" := File (kernel_json rt)]> entries))))
              (root w)) w)
    end.
Proof.
  intros Hres Hentries Hpath Hp Hb.
  rewrite write_kernel_spec_Some.
  rewrite (shutil_copytree_ok _ _ _ _ _ _ _ Hres Hentries Hpath
             (fs_makedirs_missing _ _ q _ _ Hp Hb)).
  unfold fs_fill. rewrite fs_update_dir_under.
  unfold write_file. cbn [cwd root set_root].
  rewrite (resolve_pjoin _ _ _ _ Hpath kernel_json_simple), fs_write_snoc.
  rewrite (fs_stat_update_dir _ _ _ _ _ Hp). cbn [fs_stat].
  rewrite lookup_insert_eq, fs_stat_nest.
  destruct (entries !! "kernel.json") as [[s|m']|]; [|done|];
    by rewrite fs_update_dir_under.
Qed.

(** X5: a call with an explicit path makes the directories that are missing
    on the way to it.  The path of the interpreter is 7-bit, no name of
    [RESOURCES] or of the path is [.] or [..], and the path does not lead
    into the resources.  When [b], in the directory [p], is the first name of
    the path that is missing and [q] are the names after it, the call returns
    the path and leaves [p/b] holding the chain of directories [q] with the
    staged directory at its end: each directory of the chain was not there
    before and is there after, and any path that is neither [p] or above it
    nor [p/b] or under it leads to what it led to before. *)
Theorem write_kernel_spec_creates_ancestors (rt : runtime) (path : string) (w : world)
    (pres p : list string) (b : string) (q : list string)
    (entries m : gmap string node) :
  seven_bit (sys_executable rt) = true →
  dot_free (RESOURCES rt) = true → dot_free path = true →
  resolve (cwd w) (RESOURCES rt) = Some pres →
  fs_stat pres (root w) = inr (Dir entries) →
  (∀ m', entries !! "kernel.json" ≠ Some (Dir m')) →
  resolve (cwd w) path = Some (p ++ b :: q) →
  ¬ pres `prefix_of` (p ++ b :: q) →
  fs_stat p (root w) = inr (Dir m) → m !! b = None →
  let staged := Dir (<["kernel.json" := File (kernel_json rt)]> entries) in
  let t' := fs_update_dir p (insert b (nest q staged)) (root w) in
  write_kernel_spec rt (Some path) w = (Return path, set_root t' w)
  ∧ fs_stat (p ++ b :: q) t' = inr staged
  ∧ (∀ i, i ≤ length q → fs_stat (p ++ b :: take i q) (root w) = inl ENOENT
                          ∧ is_dir (p ++ b :: take i q) t')
  ∧ (∀ q', ¬ q' `prefix_of` p → ¬ (p ++ [b]) `prefix_of` q' →
           fs_stat q' t' = fs_stat q' (root w)).
Proof.
  intros _ _ _ Hres Hentries Hkj Hpath _ Hp Hb staged t'.
  split; [|split; [|split]].
  - rewrite (write_kernel_spec_Some_exact rt path w pres p b q entries m) by done.
    destruct (entries !! "kernel.json") as [[s|m']|] eqn:Hk; [done| |done].
    by destruct (Hkj m').
  - unfold t'. rewrite (fs_stat_update_dir _ _ _ _ _ Hp). cbn [fs_stat].
    by rewrite lookup_insert_eq, fs_stat_nest.
  - intros i Hi. split.
    + rewrite fs_stat_app, Hp. cbn [fs_stat]. by rewrite Hb.
    + unfold t', is_dir. rewrite (fs_stat_update_dir _ _ _ _ _ Hp). cbn [fs_stat].
      rewrite lookup_insert_eq.
      replace (nest q staged) with (nest (take i q ++ drop i q) staged)
        by (by rewrite take_drop).
      rewrite nest_app, fs_stat_nest.
      destruct (nest_is_dir (drop i q) (<["kernel.json" := File (kernel_json rt)]> entries))
        as [m' Hm']. exists m'. by rewrite <- Hm'.
  - intros q' H1 H2. by apply fs_update_dir_frame.
Qed.

Lemma write_kernel_spec_creates_ancestors_witness :
  ∃ w',
    write_kernel_spec example_runtime (Some "/srv/kernels/py/python2") example_world
    = (Return "/srv/kernels/py/python2", w')
    ∧ is_dir ["srv"; "kernels"] (root w')
    ∧ fs_stat ["srv"] (root example_world) = inl ENOENT.
Proof.
  destruct (write_kernel_spec_creates_ancestors example_runtime "/srv/kernels/py/python2"
              example_world
              ["usr"; "lib"; "python2.7"; "site-packages"; "ipykernel"; "resources"]
              [] "srv" ["kernels"; "py"; "python2"] example_resources
              (<["tmp" := Dir (<["tmpaaa_kernels" := Dir ∅]> ∅)]>
               (<["usr" := Dir (<["lib" := Dir (<["python2.7" := Dir
                 (<["site-packages" := Dir (<["ipykernel" := Dir
                   (<["resources" := Dir example_resources]> ∅)]> ∅)]> ∅)]> ∅)]> ∅)]> ∅)))
    as (Hrun & _ & Hanc & _).
  - reflexivity.
  - reflexivity.
  - reflexivity.
  - reflexivity.
  - reflexivity.
  - intros m' Hm'. vm_compute in Hm'. discriminate Hm'.
  - reflexivity.
  - intros [l Hl]. discriminate Hl.
  - reflexivity.
  - reflexivity.
  - eexists. split; [exact Hrun|]. split.
    + apply (Hanc 1). simpl. lia.
    + apply (Hanc 0). simpl. lia.
Defined.

(** X6: a call with an explicit path never writes into what is there
    already: when the resources are a directory and the path names a file or
    a directory, the call raises [OSError] with [EEXIST] on the path, and the
    world is as it was.  No name of [RESOURCES] or of the path is [.] or
    [..]. *)
Theorem write_kernel_spec_keeps_existing (rt : runtime) (path : string) (w : world)
    (pres pp : list string) (n : node) :
  dot_free (RESOURCES rt) = true → dot_free path = true →
  resolve (cwd w) (RESOURCES rt) = Some pres → is_dir pres (root w) →
  resolve (cwd w) path = Some pp → fs_stat pp (root w) = inr n →
  write_kernel_spec rt (Some path) w = (Raise (OSError EEXIST path), w).
Proof.
  intros _ _ Hres [entries Hentries] Hpp Hn.
  rewrite write_kernel_spec_Some. unfold shutil_copytree.
  rewrite bind_M. unfold os_listdir at 1. rewrite Hres, Hentries, bind_M.
  unfold os_makedirs at 1. by rewrite Hpp, (fs_makedirs_exists _ _ _ Hn).
Qed.

Lemma write_kernel_spec_keeps_existing_witness :
  write_kernel_spec example_runtime (Some "/tmp/tmpaaa_kernels") example_world
  = (Raise (OSError EEXIST "/tmp/tmpaaa_kernels"), example_world).
Proof.
  apply (write_kernel_spec_keeps_existing example_runtime "/tmp/tmpaaa_kernels" example_world
           ["usr"; "lib"; "python2.7"; "site-packages"; "ipykernel"; "resources"]
           ["tmp"; "tmpaaa_kernels"] (Dir ∅)).
  - reflexivity.
  - reflexivity.
  - reflexivity.
  - exists example_resources. reflexivity.
  - reflexivity.
  - reflexivity.
Defined.

(** X7: when [RESOURCES] does not name a directory, a call with an explicit
    path raises the [OSError] of listing it ([ENOTDIR] for a regular file,
    else the error of looking it up), and the world is as it was: the
    destination is not made. *)
Theorem write_kernel_spec_needs_resources (rt : runtime) (path : string) (w : world)
    (pres : list string) :
  resolve (cwd w) (RESOURCES rt) = Some pres → ¬ is_dir pres (root w) →
  write_kernel_spec rt (Some path) w
  = (Raise (OSError (match fs_stat pres (root w) with
                     | inl e => e
                     | inr _ => ENOTDIR
                     end) (RESOURCES rt)), w).
Proof.
  intros Hres Hnot.
  rewrite write_kernel_spec_Some. unfold shutil_copytree.
  rewrite bind_M. unfold os_listdir at 1. rewrite Hres.
  destruct (fs_stat pres (root w)) as [e|[s|entries]] eqn:Hstat; [done..|].
  destruct Hnot. by exists entries.
Qed.

Lemma write_kernel_spec_needs_resources_witness :
  write_kernel_spec example_broken_runtime (Some "/tmp/spec") example_world
  = (Raise (OSError ENOENT "/nowhere/resources"), example_world).
Proof.
  apply (write_kernel_spec_needs_resources example_broken_runtime "/tmp/spec" example_world
           ["nowhere"; "resources"]).
  - reflexivity.
  - intros [m Hm]. discriminate Hm.
Defined.

(** X8: when the resources hold a directory called [kernel.json], a call
    with an explicit path raises [IOError] with [EISDIR] on
    [path/kernel.json], after the copy: the destination, which was not there
    before, stays behind with the entries of the resources.  No name of
    [RESOURCES] or of the path is [.] or [..], and the path does not lead
    into the resources. *)
Theorem write_kernel_spec_kernel_json_is_directory (rt : runtime) (path : string)
    (w : world) (pres p : list string) (b : string) (q : list string)
    (entries m m' : gmap string node) :
  dot_free (RESOURCES rt) = true → dot_free path = true →
  resolve (cwd w) (RESOURCES rt) = Some pres →
  fs_stat pres (root w) = inr (Dir entries) →
  entries !! "kernel.json" = Some (Dir m') →
  resolve (cwd w) path = Some (p ++ b :: q) →
  ¬ pres `prefix_of` (p ++ b :: q) →
  fs_stat p (root w) = inr (Dir m) → m !! b = None →
  ∃ w',
    write_kernel_spec rt (Some path) w
    = (Raise (IOError EISDIR (pjoin path "kernel.json")), w')
    ∧ same_but_root w w'
    ∧ fs_stat (p ++ b :: q) (root w) = inl ENOENT
    ∧ fs_stat (p ++ b :: q) (root w') = inr (Dir entries).
Proof.
  intros _ _ Hres Hentries Hkj Hpath _ Hp Hb.
  rewrite (write_kernel_spec_Some_exact rt path w pres p b q entries m) by done.
  rewrite Hkj. eexists. split; [done|]. split; [done|]. split.
  - rewrite fs_stat_app, Hp. cbn [fs_stat]. by rewrite Hb.
  - cbn [root set_root]. rewrite (fs_stat_update_dir _ _ _ _ _ Hp). cbn [fs_stat].
    by rewrite lookup_insert_eq, fs_stat_nest.
Qed.

Lemma write_kernel_spec_kernel_json_is_directory_witness :
  ∃ w',
    write_kernel_spec example_odd_runtime (Some "/spec") example_odd_world
    = (Raise (IOError EISDIR "/spec/kernel.json"), w')
    ∧ fs_stat ["spec"] (root example_odd_world) = inl ENOENT
    ∧ fs_stat ["spec"] (root w') = inr (Dir (<["kernel.json" := Dir ∅]> ∅)).
Proof.
  destruct (write_kernel_spec_kernel_json_is_directory example_odd_runtime "/spec"
              example_odd_world ["opt"; "ipykernel"; "resources"] [] "spec" []
              (<["kernel.json" := Dir ∅]> ∅)
              (<["opt" := Dir (<["ipykernel" := Dir
                 (<["resources" := Dir (<["kernel.json" := Dir ∅]> ∅)]> ∅)]> ∅)]> ∅) ∅)
    as (w' & Hrun & _ & Hbefore & Hafter);
    [reflexivity..|intros [l Hl]; discriminate Hl|reflexivity|reflexivity|].
  exists w'. split; [exact Hrun|]. split; [exact Hbefore|exact Hafter].
Defined.

Lemma shutil_copytree_raises (src dst : string) (w w' : world) (e : exn) :
  shutil_copytree src dst w = (Raise e, w') →
  w' = w ∧ ∃ errno, e = OSError errno src ∨ e = OSError errno dst.
Proof.
  unfold shutil_copytree. rewrite bind_M. unfold os_listdir at 1.
  destruct (resolve (cwd w) src) as [ps|] eqn:Hsrc; [|intros [= <- <-]; eauto].
  destruct (fs_stat ps (root w)) as [e'|[s|entries]] eqn:Hps;
    [intros [= <- <-]; eauto..|].
  rewrite bind_M. unfold os_makedirs at 1.
  destruct (resolve (cwd w) dst) as [pd|] eqn:Hdst; [|intros [= <- <-]; eauto].
  destruct (fs_makedirs pd (root w)) as [e'|t1] eqn:Hmk; [intros [= <- <-]; eauto|].
  unfold copy_entries. simpl. by rewrite Hdst.
Qed.

(** X9: a call with an explicit path fails in one of two ways, when the
    path of the interpreter is 7-bit, no name of [RESOURCES] or of the path
    is [.] or [..], and the path does not lead into the resources.  Either
    the copy did not start: the error is an [OSError], of listing the
    resources or of making the destination, and the world is as it was.  Or
    the copy was made and [kernel.json] could not be opened: the error is
    [IOError] with [EISDIR], the resources hold a directory of that name, and
    the destination, which was not there before, holds the entries of the
    resources. *)
Theorem write_kernel_spec_failure_modes (rt : runtime) (path : string) (e : exn)
    (w w' : world) :
  seven_bit (sys_executable rt) = true →
  dot_free (RESOURCES rt) = true → dot_free path = true →
  (∀ pres pp, resolve (cwd w) (RESOURCES rt) = Some pres →
              resolve (cwd w) path = Some pp → ¬ pres `prefix_of` pp) →
  write_kernel_spec rt (Some path) w = (Raise e, w') →
  (w' = w ∧ ∃ errno file, e = OSError errno file)
  ∨ (e = IOError EISDIR (pjoin path "kernel.json")
     ∧ same_but_root w w'
     ∧ ∃ pres pp entries m',
         resolve (cwd w) (RESOURCES rt) = Some pres
         ∧ fs_stat pres (root w) = inr (Dir entries)
         ∧ entries !! "kernel.json" = Some (Dir m')
         ∧ resolve (cwd w) path = Some pp
         ∧ (∃ e', fs_stat pp (root w) = inl e')
         ∧ fs_stat pp (root w') = inr (Dir entries)).
Proof.
  intros _ _ _ _. rewrite write_kernel_spec_Some.
  destruct (shutil_copytree _ _ _) as [[u|e1] w1] eqn:Hcopy.
  2:{ intros [= <- <-]. left.
      apply shutil_copytree_raises in Hcopy as [-> [errno [-> | ->]]]; eauto. }
  apply shutil_copytree_inv in Hcopy
    as (pres & pp & entries & t1 & Hres & Hentries & Hpath & Hmk & ->).
  unfold write_file. cbn [cwd root set_root].
  rewrite (resolve_pjoin _ _ _ _ Hpath kernel_json_simple), fs_write_snoc.
  pose proof (fs_fill_stat _ entries _ _ (fs_makedirs_stat _ _ _ Hmk)) as Hfilled.
  rewrite Hfilled.
  destruct (entries !! "kernel.json") as [[s|m']|] eqn:Hkj; [done| |done].
  intros [= <- <-]. right. split; [done|]. split; [done|].
  exists pres, pp, entries, m'. repeat split; try done.
  destruct (fs_stat pp (root w)) as [e'|n] eqn:Hpp; [by exists e'|].
  by rewrite (fs_makedirs_exists _ _ _ Hpp) in Hmk.
Qed.

Lemma write_kernel_spec_failure_modes_witness :
  write_kernel_spec example_broken_runtime (Some "/tmp/spec") example_world
  = (Raise (OSError ENOENT "/nowhere/resources"), example_world)
  ∧ exists_in example_world "/tmp/spec" = false.
Proof.
  pose (rw := write_kernel_spec example_broken_runtime (Some "/tmp/spec") example_world).
  assert (rw.1 = Raise (OSError ENOENT "/nowhere/resources")) as Hr
    by (vm_compute; reflexivity).
  destruct (write_kernel_spec_failure_modes example_broken_runtime "/tmp/spec"
              (OSError ENOENT "/nowhere/resources") example_world rw.2)
    as [[Hsame _] | [[=] _]].
  { reflexivity. }
  { reflexivity. }
  { reflexivity. }
  { intros pres pp Hpres Hpp [l Hl].
    assert (Some pp = Some ["tmp"; "spec"]) as [= ->] by (rewrite <- Hpp; reflexivity).
    assert (Some pres = Some ["nowhere"; "resources"]) as [= ->]
      by (rewrite <- Hpres; reflexivity).
    discriminate Hl. }
  { rewrite <- Hr. apply surjective_pairing. }
  split; [|reflexivity].
  rewrite <- Hsame, <- Hr. apply surjective_pairing.
Defined.




(** [mkdtemp] gives up when every candidate name is taken. *)
Lemma mkdtemp_loop_exhausted (n : nat) (dir : string) (w : world) (pdir : list string) m :
  (∀ j, j < n → slash_free (names w (drawn w + j)) = true) →
  resolve (cwd w) dir = Some pdir → fs_stat pdir (root w) = inr (Dir m) →
  (∀ j, j < n → is_Some (m !! temp_file w j)) →
  mkdtemp_loop n dir "tmp" "_kernels" w
  = (Raise (IOError EEXIST "No usable temporary directory name found"),
     set_drawn (drawn w + n) w).
Proof.
  revert w. induction n as [|n IH]; intros w Hnames Hdir Hpdir Htaken.
  - cbn [mkdtemp_loop]. unfold raise. rewrite Nat.add_0_r. by destruct w.
  - rewrite mkdtemp_loop_step. cbv zeta.
    erewrite os_mkdir_taken; [| |exact Hpdir|].
    + rewrite (IH (set_drawn (S (drawn w)) w)); try done.
      * cbn [drawn set_drawn]. replace (S (drawn w) + n) with (drawn w + S n) by lia.
        by destruct w.
      * intros j Hj. cbn [names drawn set_drawn].
        replace (S (drawn w) + j) with (drawn w + S j) by lia. apply Hnames. lia.
      * intros j Hj. unfold temp_file. cbn [names drawn set_drawn].
        replace (S (drawn w) + j) with (drawn w + S j) by lia.
        apply (Htaken (S j)). lia.
    + apply resolve_pjoin; [exact Hdir|]. apply temp_name_simple.
      specialize (Hnames 0). rewrite Nat.add_0_r in Hnames. apply Hnames. lia.
    + specialize (Htaken 0). unfold temp_file in Htaken.
      rewrite Nat.add_0_r in Htaken. apply Htaken. lia.
Qed.

(** X11: when each of the [TMP_MAX] candidate names is taken in the
    temporary directory, a call with no path raises the [IOError] of
    [mkdtemp], having drawn [TMP_MAX] names and changed nothing else;
    [install] raises the same error in the same world, whatever its
    arguments, so no manager is called. *)
Theorem write_kernel_spec_no_free_name (rt : runtime) (w : world) (ptmp : list string)
    (m : gmap string node) :
  (∀ j, j < TMP_MAX rt → slash_free (names w (drawn w + j)) = true) →
  resolve (cwd w) (tempdir rt) = Some ptmp → fs_stat ptmp (root w) = inr (Dir m) →
  (∀ j, j < TMP_MAX rt → is_Some (m !! temp_file w j)) →
  let e := IOError EEXIST "No usable temporary directory name found" in
  let w' := set_drawn (drawn w + TMP_MAX rt) w in
  write_kernel_spec rt None w = (Raise e, w')
  ∧ ∀ ksm user kernel_name prefix,
      install rt ksm user kernel_name prefix w = (Raise e, w').
Proof.
  intros Hnames Htmp Htmpdir Htaken e w'.
  assert (write_kernel_spec rt None w = (Raise e, w')) as Hstage.
  { rewrite write_kernel_spec_None. unfold tempfile_mkdtemp.
    by rewrite (mkdtemp_loop_exhausted _ _ _ _ _ Hnames Htmp Htmpdir Htaken). }
  split; [done|]. intros ksm user kernel_name prefix.
  by rewrite install_unfold, Hstage.
Qed.

Lemma write_kernel_spec_no_free_name_witness :
  install example_impatient_runtime None false None None example_world
  = (Raise (IOError EEXIST "No usable temporary directory name found"),
     set_drawn 1 example_world).
Proof.
  destruct (write_kernel_spec_no_free_name example_impatient_runtime example_world ["tmp"]
              (<["tmpaaa_kernels" := Dir ∅]> ∅)) as [_ Hinstall].
  - intros j Hj. assert (j = 0) as -> by (vm_compute in Hj; lia). reflexivity.
  - reflexivity.
  - reflexivity.
  - intros j Hj. assert (j = 0) as -> by (vm_compute in Hj; lia). vm_compute. eauto.
  - apply Hinstall.
Defined.

(** Whatever path a call returns was not there before the call, and is a
    directory after it. *)
Lemma write_kernel_spec_returns_new (rt : runtime) (path : option string) (p : string)
    (w w' : world) :
  write_kernel_spec rt path w = (Return p, w') →
  cwd w' = cwd w ∧ stdout w' = stdout w ∧ calls w' = calls w
  ∧ keeps_dirs (root w) (root w')
  ∧ ∃ pp, resolve (cwd w) p = Some pp
          ∧ (∃ e, fs_stat pp (root w) = inl e) ∧ is_dir pp (root w').
Proof.
  destruct path as [path|].
  - intros (-> & (Hcwd & _ & _ & Hout & Hcalls) & pres & pp & entries & _ & _ & Hpp
            & Hnew & Hstat & Hdirs)%write_kernel_spec_Some_inv.
    repeat split; try done. exists pp. repeat split; try done. by eexists.
  - rewrite write_kernel_spec_None. unfold tempfile_mkdtemp.
    destruct (mkdtemp_loop _ _ _ _ w) as [[tmp|e0] w1] eqn:Htmp; [|done].
    apply mkdtemp_loop_any in Htmp as (Hcwd1 & Hout1 & Hcalls1 & Hdirs1 & Hnew1).
    destruct (Hnew1 tmp eq_refl) as (pt & Hpt & Hfresh & _).
    intros (-> & (Hcwd & _ & _ & Hout & Hcalls) & pres & pp & entries & _ & _ & Hpp
            & _ & Hstat & Hdirs)%write_kernel_spec_Some_inv.
    split; [congruence|]. split; [congruence|]. split; [congruence|].
    split; [intros q Hq; by apply Hdirs, Hdirs1|].
    pose proof (resolve_pjoin _ _ _ _ Hpt (KERNEL_NAME_simple rt)) as Hpath.
    rewrite Hcwd1, Hpath in Hpp. injection Hpp as <-.
    exists (pt ++ [KERNEL_NAME rt]). split; [done|]. split; [|by eexists].
    exists ENOENT. by rewrite fs_stat_app, Hfresh.
Qed.

(** X12: whatever its argument, the path [write_kernel_spec] returns named
    nothing before the call and is there after it; no directory went away,
    and working directory, output and recorded calls are as they were. *)
Theorem write_kernel_spec_returns_fresh_path (rt : runtime) (path : option string)
    (p : string) (w w' : world) :
  write_kernel_spec rt path w = (Return p, w') →
  exists_in w p = false ∧ exists_in w' p = true
  ∧ keeps_dirs (root w) (root w')
  ∧ cwd w' = cwd w ∧ stdout w' = stdout w ∧ calls w' = calls w.
Proof.
  intros (Hcwd & Hout & Hcalls & Hdirs & pp & Hpp & [e He] & [mp Hmp])%write_kernel_spec_returns_new.
  split; [by rewrite (exists_in_stat _ _ _ Hpp), He|].
  split; [|done].
  rewrite <- Hcwd in Hpp. by rewrite (exists_in_stat _ _ _ Hpp), Hmp.
Qed.

Lemma write_kernel_spec_returns_fresh_path_witness :
  ∃ w',
    write_kernel_spec example_runtime (Some "spec") example_world = (Return "spec", w')
    ∧ exists_in example_world "spec" = false ∧ exists_in w' "spec" = true.
Proof.
  pose (rw := write_kernel_spec example_runtime (Some "spec") example_world).
  assert (rw.1 = Return "spec") as Hr by (vm_compute; reflexivity).
  destruct (write_kernel_spec_returns_fresh_path example_runtime (Some "spec") "spec"
              example_world rw.2) as (Hbefore & Hafter & _).
  { rewrite <- Hr. apply surjective_pairing. }
  exists rw.2. split; [rewrite <- Hr; apply surjective_pairing|]. by split.
Defined.

(** X13: two calls, one after the other, that both return, return
    different paths, whatever their arguments; both paths are there after the
    second call. *)
Theorem write_kernel_spec_paths_differ (rt : runtime) (path1 path2 : option string)
    (p1 p2 : string) (w w1 w2 : world) :
  write_kernel_spec rt path1 w = (Return p1, w1) →
  write_kernel_spec rt path2 w1 = (Return p2, w2) →
  p1 ≠ p2 ∧ exists_in w2 p1 = true ∧ exists_in w2 p2 = true.
Proof.
  intros (Hcwd1 & _ & _ & _ & pp1 & Hpp1 & _ & Hdir1)%write_kernel_spec_returns_new
         (Hcwd2 & _ & _ & Hdirs2 & pp2 & Hpp2 & [e He] & [m2 Hdir2])%write_kernel_spec_returns_new.
  rewrite <- Hcwd1 in Hpp1.
  split; [|split].
  - intros ->. rewrite Hpp1 in Hpp2. injection Hpp2 as <-.
    destruct Hdir1 as [m1 Hm1]. congruence.
  - rewrite <- Hcwd2 in Hpp1. rewrite (exists_in_stat _ _ _ Hpp1).
    destruct (Hdirs2 pp1 Hdir1) as [m1 ->]. done.
  - rewrite <- Hcwd2 in Hpp2. by rewrite (exists_in_stat _ _ _ Hpp2), Hdir2.
Qed.

Lemma write_kernel_spec_paths_differ_witness :
  ∃ w1 w2,
    write_kernel_spec example_runtime None example_world
    = (Return "/tmp/tmpb1_kernels/python2", w1)
    ∧ write_kernel_spec example_runtime None w1
      = (Return "/tmp/tmpb2_kernels/python2", w2)
    ∧ exists_in w2 "/tmp/tmpb1_kernels/python2" = true.
Proof.
  pose (rw1 := write_kernel_spec example_runtime None example_world).
  assert (rw1.1 = Return "/tmp/tmpb1_kernels/python2") as Hr1 by (vm_compute; reflexivity).
  pose (rw2 := write_kernel_spec example_runtime None rw1.2).
  assert (rw2.1 = Return "/tmp/tmpb2_kernels/python2") as Hr2 by (vm_compute; reflexivity).
  destruct (write_kernel_spec_paths_differ example_runtime None None
              "/tmp/tmpb1_kernels/python2" "/tmp/tmpb2_kernels/python2"
              example_world rw1.2 rw2.2) as (_ & Hfirst & _).
  { rewrite <- Hr1. apply surjective_pairing. }
  { rewrite <- Hr2. apply surjective_pairing. }
  exists rw1.2, rw2.2.
  split; [rewrite <- Hr1; apply surjective_pairing|].
  split; [rewrite <- Hr2; apply surjective_pairing|exact Hfirst].
Defined.

(** ** The installer, to the letter *)




(** After staging, the staged path resolves to a name in a directory. *)
Lemma write_kernel_spec_None_path (rt : runtime) (path : string) (w w1 : world) :
  write_kernel_spec rt None w = (Return path, w1) →
  cwd w1 = cwd w ∧ calls w1 = calls w
  ∧ ∃ tmp ptmpdir,
      path = pjoin tmp (KERNEL_NAME rt)
      ∧ resolve (cwd w) tmp = Some ptmpdir
      ∧ resolve (cwd w) path = Some (ptmpdir ++ [KERNEL_NAME rt])
      ∧ fs_stat ptmpdir (root w) = inl ENOENT
      ∧ is_dir (ptmpdir ++ [KERNEL_NAME rt]) (root w1).
Proof.
  rewrite write_kernel_spec_None. unfold tempfile_mkdtemp.
  destruct (mkdtemp_loop _ _ _ _ w) as [[tmp|e0] wt] eqn:Htmp; [|done].
  apply mkdtemp_loop_any in Htmp as (Hcwd1 & _ & Hcalls1 & _ & Hnew1).
  destruct (Hnew1 tmp eq_refl) as (pt & Hpt & Hfresh & _).
  intros (-> & (Hcwd & _ & _ & _ & Hcalls) & pres & pp & entries & _ & _ & Hpp
          & _ & Hstat & _)%write_kernel_spec_Some_inv.
  split; [congruence|]. split; [congruence|].
  pose proof (resolve_pjoin _ _ _ _ Hpt (KERNEL_NAME_simple rt)) as Hpath.
  rewrite Hcwd1, Hpath in Hpp. injection Hpp as <-.
  exists tmp, pt. repeat split; try done. by eexists.
Qed.

(** X15: with any manager.  When staging returned [path], and the manager
    returns [dest] without changing the working directory and leaves the
    staged path a directory, [install] returns [dest]; after the manager it
    changes the file system only: the staged path is gone, its parent is
    still a directory, and any path that is neither that parent or above it
    nor the staged path or under it leads to what the manager left. *)
Theorem install_returns_manager_dest (rt : runtime) (ksm : KernelSpecManager)
    (user : bool) (kernel_name : string) (prefix : option string)
    (path dest : string) (w w1 w2 : world) :
  write_kernel_spec rt None w = (Return path, w1) →
  install_kernel_spec ksm path kernel_name user prefix w1 = (Return dest, w2) →
  cwd w2 = cwd w1 →
  ∃ parent name,
    resolve (cwd w) path = Some (parent ++ [name])
    ∧ (is_dir (parent ++ [name]) (root w2) →
       ∃ w3,
         install rt (Some ksm) user (Some kernel_name) prefix w = (Return dest, w3)
         ∧ same_but_root w2 w3
         ∧ exists_in w3 path = false
         ∧ is_dir parent (root w3)
         ∧ (∀ q, ¬ q `prefix_of` parent → ¬ (parent ++ [name]) `prefix_of` q →
                 fs_stat q (root w3) = fs_stat q (root w2))).
Proof.
  intros Hstage Hinstall Hcwd2.
  pose proof Hstage as (Hcwd1 & _ & tmp & ptmpdir & -> & _ & Hpath & _ & _)%write_kernel_spec_None_path.
  exists ptmpdir, (KERNEL_NAME rt). split; [done|]. intros Hdir.
  rewrite <- Hcwd1, <- Hcwd2 in Hpath.
  destruct (shutil_rmtree_ok _ w2 ptmpdir (KERNEL_NAME rt) Hpath Hdir) as [Hrm Hgone].
  eexists. split.
  { by rewrite install_unfold, Hstage, Hinstall, Hrm. }
  split; [done|]. split.
  { unfold exists_in. cbn [cwd root set_root]. by rewrite Hpath, Hgone. }
  split.
  { cbn [root set_root]. destruct Hdir as [mp Hmp].
    apply fs_stat_snoc_dir in Hmp as (mt & Hmt & _).
    exists (delete (KERNEL_NAME rt) mt). by apply fs_stat_update_dir_eq. }
  intros q H1 H2. cbn [root set_root].
  apply (fs_update_dir_frame_at _ (KERNEL_NAME rt)); [|done..].
  intros m0 c Hc. by rewrite lookup_delete_ne.
Qed.

Lemma install_returns_manager_dest_witness :
  ∃ w3,
    install example_runtime (Some (stub_manager (Return "/fake/dest"))) true
      (Some "testkernel") None example_world = (Return "/fake/dest", w3)
    ∧ exists_in w3 "/tmp/tmpb1_kernels/python2" = false.
Proof.
  pose (rw := write_kernel_spec example_runtime None example_world).
  assert (rw.1 = Return "/tmp/tmpb1_kernels/python2") as Hr by (vm_compute; reflexivity).
  destruct (install_returns_manager_dest example_runtime (stub_manager (Return "/fake/dest"))
              true "testkernel" None "/tmp/tmpb1_kernels/python2" "/fake/dest"
              example_world rw.2
              (add_call (InstallCall "/tmp/tmpb1_kernels/python2" "testkernel" true None)
                 rw.2))
    as (parent & name & Hpath & Hrest).
  { rewrite <- Hr. apply surjective_pairing. }
  { vm_compute. reflexivity. }
  { vm_compute. reflexivity. }
  assert (Some (parent ++ [name]) = Some ["tmp"; "tmpb1_kernels"; "python2"]) as [= Heq].
  { rewrite <- Hpath. reflexivity. }
  destruct Hrest as (w3 & Hrun & _ & Hgone & _).
  { rewrite Heq. vm_compute. eauto. }
  exists w3. split; [exact Hrun|exact Hgone].
Defined.

(** X16: when the manager returns but the staged path is no directory any
    more (the manager moved it away, say), [install] does not return the
    [dest] of the manager: it raises the [OSError] of [rmtree] on the staged
    path, in the world the manager left. *)
Theorem install_loses_dest_when_staged_path_is_gone (rt : runtime)
    (ksm : KernelSpecManager) (user : bool) (kernel_name : string)
    (prefix : option string) (path dest : string) (w w1 w2 : world) :
  write_kernel_spec rt None w = (Return path, w1) →
  install_kernel_spec ksm path kernel_name user prefix w1 = (Return dest, w2) →
  cwd w2 = cwd w1 →
  ∃ pp,
    resolve (cwd w) path = Some pp
    ∧ (¬ is_dir pp (root w2) →
       install rt (Some ksm) user (Some kernel_name) prefix w
       = (Raise (OSError (match fs_stat pp (root w2) with
                          | inl e => e
                          | inr _ => ENOTDIR
                          end) path), w2)).
Proof.
  intros Hstage Hinstall Hcwd2.
  pose proof Hstage as (Hcwd1 & _ & tmp & ptmpdir & -> & _ & Hpath & _ & _)%write_kernel_spec_None_path.
  exists (ptmpdir ++ [KERNEL_NAME rt]). split; [done|]. intros Hnot.
  rewrite install_unfold, Hstage, Hinstall.
  unfold shutil_rmtree, fs_rmtree. rewrite Hcwd2, Hcwd1, Hpath.
  destruct (fs_stat _ (root w2)) as [e|[s|mp]] eqn:Hstat.
  - by destruct w2.
  - by destruct w2.
  - destruct Hnot. by exists mp.
Qed.

Lemma install_loses_dest_when_staged_path_is_gone_witness :
  ∃ w2,
    install example_runtime (Some example_moving_manager) false (Some "python2") None
      example_world = (Raise (OSError ENOENT "/tmp/tmpb1_kernels/python2"), w2).
Proof.
  pose (rw := write_kernel_spec example_runtime None example_world).
  assert (rw.1 = Return "/tmp/tmpb1_kernels/python2") as Hr by (vm_compute; reflexivity).
  pose (rw2 := install_kernel_spec example_moving_manager "/tmp/tmpb1_kernels/python2"
                 "python2" false None rw.2).
  assert (rw2.1 = Return "/usr/share/jupyter/kernels/python2") as Hr2
    by (vm_compute; reflexivity).
  destruct (install_loses_dest_when_staged_path_is_gone example_runtime
              example_moving_manager false "python2" None "/tmp/tmpb1_kernels/python2"
              "/usr/share/jupyter/kernels/python2" example_world rw.2 rw2.2)
    as (pp & Hpath & Hrest).
  { rewrite <- Hr. apply surjective_pairing. }
  { rewrite <- Hr2. apply surjective_pairing. }
  { vm_compute. reflexivity. }
  assert (Some pp = Some ["tmp"; "tmpb1_kernels"; "python2"]) as [= ->].
  { rewrite <- Hpath. reflexivity. }
  assert (fs_stat ["tmp"; "tmpb1_kernels"; "python2"] (root rw2.2) = inl ENOENT) as Hgone
    by (vm_compute; reflexivity).
  exists rw2.2. rewrite Hrest.
  - by rewrite Hgone.
  - intros [mp Hmp]. rewrite Hgone in Hmp. discriminate Hmp.
Defined.

(** What an [install] that returns has done, the manager being a stub. *)
Lemma install_stub_inv (rt : runtime) (dest r : string) (user : bool)
    (kernel_name prefix : option string) (w w' : world) :
  install rt (Some (stub_manager (Return dest))) user kernel_name prefix w = (Return r, w') →
  ∃ tmp ptmpdir,
    cwd w' = cwd w
    ∧ resolve (cwd w) tmp = Some ptmpdir
    ∧ fs_stat ptmpdir (root w) = inl ENOENT
    ∧ is_dir ptmpdir (root w')
    ∧ (∀ q, is_dir q (root w) → is_dir q (root w'))
    ∧ call_source_dir <$> calls w'
      = (call_source_dir <$> calls w) ++ [pjoin tmp (KERNEL_NAME rt)].
Proof.
  rewrite install_unfold.
  destruct (write_kernel_spec rt None w) as [[path|e] w1] eqn:Hstage; [|done].
  pose proof Hstage as (_ & _ & _ & Hdirs & _)%write_kernel_spec_returns_new.
  pose proof Hstage as (Hcwd1 & Hcalls1 & tmp & ptmpdir & -> & Htmp & Hpath & Hfresh
                        & Hstaged)%write_kernel_spec_None_path.
  cbn [stub_manager install_kernel_spec].
  set (w2 := add_call _ w1).
  destruct (shutil_rmtree_ok (pjoin tmp (KERNEL_NAME rt)) w2 ptmpdir (KERNEL_NAME rt))
    as [-> _]; [by rewrite <- Hpath, <- Hcwd1|done|].
  intros [= <- <-]. exists tmp, ptmpdir. cbn [cwd root calls set_root add_call w2].
  split; [done|]. split; [done|]. split; [done|].
  assert (∀ q, is_dir q (root w) → ¬ (ptmpdir ++ [KERNEL_NAME rt]) `prefix_of` q) as Hout.
  { intros q [mq Hq] [l ->]. rewrite <- app_assoc, fs_stat_app, Hfresh in Hq. done. }
  split; [|split].
  - destruct Hstaged as [mp Hmp]. apply fs_stat_snoc_dir in Hmp as (mt & Hmt & _).
    exists (delete (KERNEL_NAME rt) mt). by apply fs_stat_update_dir_eq.
  - intros q Hq. apply fs_update_dir_delete_keeps; [by apply Hdirs|by apply Hout].
  - by rewrite fmap_app, Hcalls1.
Qed.

(** X17: two installs, one after the other, with stub managers that
    return, stage in two different temporary directories; neither was there
    before its install, both are there at the end, and the stubs were handed
    the two staged paths, in order. *)
Theorem install_twice_leaves_two_directories (rt : runtime) (dest1 dest2 r1 r2 : string)
    (user1 user2 : bool) (name1 name2 prefix1 prefix2 : option string)
    (w w1 w2 : world) :
  install rt (Some (stub_manager (Return dest1))) user1 name1 prefix1 w = (Return r1, w1) →
  install rt (Some (stub_manager (Return dest2))) user2 name2 prefix2 w1 = (Return r2, w2) →
  ∃ tmp1 tmp2,
    tmp1 ≠ tmp2
    ∧ call_source_dir <$> calls w2
      = (call_source_dir <$> calls w)
        ++ [pjoin tmp1 (KERNEL_NAME rt); pjoin tmp2 (KERNEL_NAME rt)]
    ∧ exists_in w tmp1 = false ∧ exists_in w1 tmp2 = false
    ∧ exists_in w2 tmp1 = true ∧ exists_in w2 tmp2 = true.
Proof.
  intros (tmp1 & p1 & Hcwd1 & Htmp1 & Hfresh1 & Hdir1 & _ & Hcalls1)%install_stub_inv
         (tmp2 & p2 & Hcwd2 & Htmp2 & Hfresh2 & Hdir2 & Hkeeps2 & Hcalls2)%install_stub_inv.
  exists tmp1, tmp2. split; [|split; [|split; [|split; [|split]]]].
  - intros ->. rewrite Hcwd1, Htmp1 in Htmp2. injection Htmp2 as <-.
    destruct Hdir1 as [m1 Hm1]. congruence.
  - by rewrite Hcalls2, Hcalls1, <- app_assoc.
  - by rewrite (exists_in_stat _ _ _ Htmp1), Hfresh1.
  - by rewrite (exists_in_stat _ _ _ Htmp2), Hfresh2.
  - unfold exists_in. rewrite Hcwd2, Hcwd1, Htmp1.
    by destruct (Hkeeps2 p1 Hdir1) as [m1 ->].
  - unfold exists_in. rewrite Hcwd2, Htmp2. by destruct Hdir2 as [m2 ->].
Qed.

Lemma install_twice_leaves_two_directories_witness :
  ∃ w1 w2,
    install example_runtime (Some (stub_manager (Return "/a"))) false None None
      example_world = (Return "/a", w1)
    ∧ install example_runtime (Some (stub_manager (Return "/b"))) true None None w1
      = (Return "/b", w2)
    ∧ call_source_dir <$> calls w2
      = ["/tmp/tmpb1_kernels/python2"; "/tmp/tmpb2_kernels/python2"].
Proof.
  pose (rw1 := install example_runtime (Some (stub_manager (Return "/a"))) false None None
                 example_world).
  assert (rw1.1 = Return "/a") as Hr1 by (vm_compute; reflexivity).
  pose (rw2 := install example_runtime (Some (stub_manager (Return "/b"))) true None None
                 rw1.2).
  assert (rw2.1 = Return "/b") as Hr2 by (vm_compute; reflexivity).
  destruct (install_twice_leaves_two_directories example_runtime "/a" "/b" "/a" "/b"
              false true None None None None example_world rw1.2 rw2.2)
    as (tmp1 & tmp2 & _ & _).
  { rewrite <- Hr1. apply surjective_pairing. }
  { rewrite <- Hr2. apply surjective_pairing. }
  exists rw1.2, rw2.2.
  split; [rewrite <- Hr1; apply surjective_pairing|].
  split; [rewrite <- Hr2; apply surjective_pairing|].
  vm_compute. reflexivity.
Defined.

(** ** The entry point, beyond the three flags *)

(** The three flags, spelled in full, before the rest of the command
    line. *)
Lemma consume_uses_app (rt : runtime) (help_text : string) (uses : list flag_use)
    (rest : list string) (extras : bool) (ns : gmap string nsval) (w : world) :
  Forall (λ u, use_ok u = true) uses →
  consume (parser rt) help_text ((uses ≫= render) ++ rest) false extras ns w
  = consume (parser rt) help_text rest false extras (foldl apply_use ns uses) w.
Proof.
  revert ns. induction uses as [|u uses IH]; intros ns Hok; [done|].
  apply Forall_cons in Hok as [Hu Hok]. rewrite bind_cons, <- app_assoc.
  destruct u as [|v|v]; cbn [render app]; rewrite consume_cons.
  - change (false || bool_decide ("--user" = "--")) with false. cbv iota.
    rewrite parse_optional_user. cbn [arg_action user_argument].
    rewrite bind_M. cbn [take_action arg_action user_argument mret M_ret dest].
    by rewrite IH.
  - change (false || bool_decide ("--name" = "--")) with false. cbv iota.
    rewrite parse_optional_name. cbn [arg_action name_argument].
    cbn [use_ok] in Hu. rewrite Hu, bind_M.
    cbn [take_action arg_action name_argument mret M_ret dest].
    by rewrite IH.
  - change (false || bool_decide ("--prefix" = "--")) with false. cbv iota.
    rewrite parse_optional_prefix. cbn [arg_action prefix_argument].
    cbn [use_ok] in Hu. rewrite Hu, bind_M.
    cbn [take_action arg_action prefix_argument mret M_ret dest].
    by rewrite IH.
Qed.


(** An argument that does not begin with a dash is no option and not the
    [--] that ends the options. *)
Lemma parse_optional_positional (p : ArgumentParser) (x : string) :
  takes_value x = true →
  parse_optional p x = Extra ∧ bool_decide (x = "--") = false.
Proof.
  intros Hx. destruct x as [|c1 x']; [done|].
  destruct (decide (c1 = "-"%char)) as [->|Hc1]; [done|]. split.
  - destruct x' as [|c2 x'']; [done|]. cbn [parse_optional].
    by rewrite bool_decide_eq_false_2.
  - apply bool_decide_eq_false_2. intros [= Heq _]. by destruct Hc1.
Qed.

(** X18: an argument that does not begin with a dash, anywhere among the
    three flags spelled in full with their values, makes [main] exit with
    status 2: it is left over when the options are read, and [parse_args]
    refuses what is left over.  Nothing is written to the standard output,
    nothing is staged, and no manager is called: the world is as it was. *)
Theorem main_refuses_positional (rt : runtime) (uses1 uses2 : list flag_use)
    (x : string) (w : world) :
  Forall (λ u, use_ok u = true) uses1 →
  Forall (λ u, use_ok u = true) uses2 →
  takes_value x = true →
  main rt ((uses1 ≫= render) ++ x :: (uses2 ≫= render)) w
  = (Raise (SystemExit 2), w).
Proof.
  intros Hok1 Hok2 Hx. rewrite main_unfold. unfold parse_args.
  destruct (parse_optional_positional (parser rt) x Hx) as [Hextra Hdashes].
  rewrite consume_uses_app by done. rewrite consume_cons, Hdashes, Hextra.
  cbn [orb]. cbv iota.
  rewrite <- (app_nil_r (uses2 ≫= render)), consume_uses_app by done.
  reflexivity.
Qed.

Lemma main_refuses_positional_witness :
  main example_runtime ["--user"; "install"; "--name"; "x"] example_world
  = (Raise (SystemExit 2), example_world).
Proof.
  apply (main_refuses_positional example_runtime [UseUser] [UseName "x"] "install"
           example_world).
  - repeat constructor.
  - repeat constructor.
  - reflexivity.
Defined.

(** X19: [-h] or [--help] after any of the three flags spelled in full:
    [main] prints the help text and exits with status 0, whatever follows on
    the command line, and nothing is installed.  What follows is taken to
    hold no ambiguous abbreviation: [argparse] refuses those wherever they
    stand. *)
Theorem main_help (rt : runtime) (uses : list flag_use) (flag : string)
    (rest : list string) (w : world) :
  Forall (λ u, use_ok u = true) uses →
  flag = "-h" ∨ flag = "--help" →
  Forall (λ arg, parse_optional (parser rt) arg ≠ Ambiguous) rest →
  main rt ((uses ≫= render) ++ flag :: rest) w
  = (Raise (SystemExit 0), add_stdout (format_help rt (parser rt)) w).
Proof.
  intros Hok Hflag _. rewrite main_unfold. unfold parse_args.
  rewrite consume_uses_app by done. rewrite consume_cons.
  by destruct Hflag as [-> | ->].
Qed.

Lemma main_help_witness :
  main example_runtime ["--user"; "--help"; "--name"; "install"] example_world
  = (Raise (SystemExit 0), add_stdout "usage" example_world).
Proof.
  apply (main_help example_runtime [UseUser] "--help" ["--name"; "install"] example_world).
  - repeat constructor.
  - by right.
  - repeat constructor; vm_compute; discriminate.
Defined.


